(** * Demucs waveform denoiser: length arithmetic, construction and forward pass

    A shallow embedding of [src/models/denoiser/demucs/demucs.py].

    - Integers of the program are [Z]; the float parameters [growth] and
      [rescale] are rationals ([Q]) with exact arithmetic; [int(.)] is
      truncation toward zero.
    - [math.ceil(a / b)] on integers is the exact ceiling of the quotient
      (Python's true division is correctly rounded, so the two agree for all
      operands below 2^53, far beyond any audio length).
    - A Python exception is a [Raise] result. *)

From Stdlib Require Import ZArith QArith Qpower Qround Qreals List Bool Lia Reals Lra.
Import ListNotations.

Set Implicit Arguments.

(** ** Exceptions and the error monad

    [OutsideContract] is no Python exception: it marks a call of the
    resampler that its specification does not cover. *)

Inductive exn : Set :=
| AssertionError
| ZeroDivisionError
| RuntimeError
| ValueError
| IndexError
| OutsideContract.

Inductive result (A : Type) : Type :=
| Ok (a : A)
| Raise (e : exn).

Arguments Ok {A} a.
Arguments Raise {A} e.

Definition bind {A B : Type} (r : result A) (k : A -> result B) : result B :=
  match r with
  | Ok a => k a
  | Raise e => Raise e
  end.

Notation "x <- r ;; k" := (bind r (fun x => k))
  (at level 61, r at next level, right associativity).


(** [for _ in range(n): x = f(x)] where [f] may raise. *)
Fixpoint iterM {A : Type} (n : nat) (f : A -> result A) (x : A) : result A :=
  match n with
  | O => Ok x
  | S n' => y <- f x ;; iterM n' f y
  end.

(** ** Configuration: the arguments of [Demucs.__init__] *)

Record Config : Type := mkConfig {
  hidden_dim : Z;
  growth : Q;
  depth : Z;
  causal : bool;
  resample : Z;
  rescale : Q;
  stride_conv : Z;
  kernel_conv : Z;
  stride_glu : Z;
  kernel_glu : Z;
  original : bool;
  use_bias : bool;
  normalize : bool
}.

(** The default arguments of the constructor. *)
Definition default_config : Config :=
  {| hidden_dim := 64; growth := 1; depth := 5; causal := true;
     resample := 4; rescale := 1 # 10; stride_conv := 4; kernel_conv := 8;
     stride_glu := 1; kernel_glu := 1; original := true; use_bias := true;
     normalize := true |}.

(** [range(depth)] runs [Z.to_nat depth] times (never for [depth <= 0]). *)
Definition levels (cfg : Config) : nat := Z.to_nat (depth cfg).

(** ** [Demucs.valid_length] *)

Local Open Scope Z_scope.

(** [math.ceil(a / b)] *)
Definition ceil_div (a b : Z) : result Z :=
  if b =? 0 then Raise ZeroDivisionError else Ok (- ((- a) / b)).

(** The length after a convolution, as [valid_length] counts it:
    [max(math.ceil((length - kernel) / stride) + 1, 1)]. *)
Definition conv_length (kernel stride length : Z) : result Z :=
  q <- ceil_div (length - kernel) stride ;;
  Ok (Z.max (q + 1) 1).

(** One iteration of the encoder loop of [valid_length]. *)
Definition encoder_length (cfg : Config) (length : Z) : result Z :=
  length <- conv_length (kernel_conv cfg) (stride_conv cfg) length ;;
  conv_length (kernel_glu cfg) (stride_glu cfg) length.

(** One iteration of the decoder loop of [valid_length]. *)
Definition decoder_length (cfg : Config) (length : Z) : Z :=
  (length - 1) * stride_conv cfg + kernel_conv cfg.

Definition valid_length (cfg : Config) (length : Z) : result Z :=
  let length := length * resample cfg in
  length <- iterM (levels cfg) (encoder_length cfg) length ;;
  let length := Nat.iter (levels cfg) (decoder_length cfg) length in
  ceil_div length (resample cfg).

(** *** The properties the specification names for [valid_length] *)

Definition ceil_quot (a b : Z) : Z := - ((- a) / b).

(** The value of [conv_length] when the stride is not zero. *)
Definition conv_out (kernel stride length : Z) : Z :=
  Z.max (ceil_quot (length - kernel) stride + 1) 1.

(** The length [valid_length] reaches after its encoder loop, and after its
    decoder loop (before the final division), when no stride is zero and
    the gated convolutions have kernel and stride 1. *)
Definition bottleneck_length (cfg : Config) (length : Z) : Z :=
  Nat.iter (levels cfg) (conv_out (kernel_conv cfg) (stride_conv cfg))
    (length * resample cfg).

Definition decoded_length (cfg : Config) (length : Z) : Z :=
  Nat.iter (levels cfg) (decoder_length cfg) (bottleneck_length cfg length).




(** The configurations whose layers the arithmetic of [valid_length]
    mirrors: gated convolutions of kernel and stride 1, a positive kernel
    and stride, and a resampling factor that divides both. *)
Definition aligned (cfg : Config) : Prop :=
  kernel_glu cfg = 1 /\ stride_glu cfg = 1
  /\ 1 <= stride_conv cfg /\ 1 <= kernel_conv cfg
  /\ 1 <= resample cfg
  /\ stride_conv cfg mod resample cfg = 0
  /\ kernel_conv cfg mod resample cfg = 0.


(** ** Parameter tensors and modules of the tensor library

    The tensor library (PyTorch) is used, not defined, by the sources: its
    layers are modelled from their documented behaviour.  Parameter values
    are real numbers (the exact idealisation of the library's floats; NaN
    and infinities are not represented). *)

Record ConvNd : Type := mkConv {
  in_channels : Z;
  out_channels : Z;
  kernel_size : Z;
  stride : Z;
  padding : Z;
  weight : list (list (list R));
  bias : option (list R)
}.

Record LinearParams : Type := mkLinear {
  in_features : Z;
  out_features : Z;
  lin_weight : list (list R);
  lin_bias : option (list R)
}.

Record LSTMCell : Type := mkCell {
  weight_ih : list (list R);
  weight_hh : list (list R);
  bias_ih : option (list R);
  bias_hh : option (list R)
}.

(** One entry of [cells] per layer: the forward direction and, for a
    bidirectional network, the reverse direction. *)
Record LSTM : Type := mkLSTM {
  input_size : Z;
  hidden_size : Z;
  num_layers : Z;
  bidirectional : bool;
  cells : list (LSTMCell * option LSTMCell)
}.

Inductive Module : Type :=
| Conv1d (c : ConvNd)
| ConvTranspose1d (c : ConvNd)
| ReLU
| Identity
| GLU (dim : Z)
| Linear (l : LinearParams).

(** [nn.Sequential] *)
Definition Sequential : Type := list Module.

(** The places where a convolution is created, by block and level. *)
Inductive slot : Set :=
| EncConv (level : Z)
| EncGlu (level : Z)
| DecGlu (level : Z)
| DecConv (level : Z).

(** The initial (random) parameter values the library draws when a layer is
    created. *)
Record Init : Type := mkInit {
  conv_weight : slot -> list (list (list R));
  conv_bias : slot -> list R;
  lstm_cell : nat -> bool -> LSTMCell;
  linear_weight : list (list R);
  linear_bias : list R
}.

Module nn.

(** The constructors allocate parameter tensors: a negative dimension is
    refused. *)
Definition Conv1d (w : list (list (list R))) (b : list R)
    (in_channels out_channels kernel_size stride padding : Z)
    (use_bias : bool) : result Module :=
  if (in_channels <? 0) || (out_channels <? 0) || (kernel_size <? 0)
  then Raise RuntimeError
  else Ok (Conv1d (mkConv in_channels out_channels kernel_size stride padding
                          w (if use_bias then Some b else None))).

Definition ConvTranspose1d (w : list (list (list R))) (b : list R)
    (in_channels out_channels kernel_size stride : Z)
    (use_bias : bool) : result Module :=
  if (in_channels <? 0) || (out_channels <? 0) || (kernel_size <? 0)
  then Raise RuntimeError
  else Ok (ConvTranspose1d (mkConv in_channels out_channels kernel_size stride 0
                          w (if use_bias then Some b else None))).

Definition drop_bias (use_bias : bool) (c : LSTMCell) : LSTMCell :=
  if use_bias then c
  else mkCell (weight_ih c) (weight_hh c) None None.

Definition LSTM (cell : nat -> bool -> LSTMCell)
    (input_size hidden_size num_layers : Z) (bidirectional use_bias : bool)
    : result LSTM :=
  if hidden_size <=? 0 then Raise ValueError
  else if num_layers <=? 0 then Raise ValueError
  else if input_size <? 0 then Raise RuntimeError
  else Ok (mkLSTM input_size hidden_size num_layers bidirectional
             (map (fun l => (drop_bias use_bias (cell l false),
                             if bidirectional
                             then Some (drop_bias use_bias (cell l true))
                             else None))
                  (seq 0 (Z.to_nat num_layers)))).

Definition Linear (w : list (list R)) (b : list R)
    (in_features out_features : Z) (use_bias : bool) : result Module :=
  if (in_features <? 0) || (out_features <? 0) then Raise RuntimeError
  else Ok (Linear (mkLinear in_features out_features w
                            (if use_bias then Some b else None))).

End nn.

(** ** Construction: [Demucs.__init__] *)

(** [int(q)] *)
Definition to_int (q : Q) : Z := Z.quot (Qnum q) (Zpos (Qden q)).

(** [2 ** e] (a float when [e] is negative) *)
Definition pow2 (e : Z) : Q := Qpower (inject_Z 2) e.

Definition _build_encoder_block (init : Init) (level : Z) (hidden_dim : Z)
    (growth : Q) (stride_conv kernel_conv stride_glu kernel_glu : Z)
    (use_relu use_bias : bool) : result Sequential :=
  let in_channels :=
    if level =? 0 then 1
    else to_int (inject_Z hidden_dim * growth * pow2 (level - 1))%Q in
  let out_channels := to_int (inject_Z hidden_dim * growth * pow2 level)%Q in
  conv <- nn.Conv1d (conv_weight init (EncConv level))
            (conv_bias init (EncConv level))
            in_channels out_channels kernel_conv stride_conv 0 use_bias ;;
  let relu := if use_relu then ReLU else Identity in
  conv_glu <- nn.Conv1d (conv_weight init (EncGlu level))
                (conv_bias init (EncGlu level))
                out_channels (2 * out_channels) kernel_glu stride_glu
                (kernel_glu / 2) use_bias ;;
  let glu := GLU 1 in
  Ok [conv; relu; conv_glu; glu].

Definition _build_decoder_block (init : Init) (level : Z) (hidden_dim : Z)
    (growth : Q) (stride_conv kernel_conv stride_glu kernel_glu : Z)
    (use_relu use_bias : bool) : result Sequential :=
  let in_channels := to_int (inject_Z hidden_dim * growth * pow2 level)%Q in
  let out_channels :=
    if level =? 0 then 1
    else to_int (inject_Z hidden_dim * growth * pow2 (level - 1))%Q in
  deconv_glu <- nn.Conv1d (conv_weight init (DecGlu level))
                  (conv_bias init (DecGlu level))
                  in_channels (2 * in_channels) kernel_glu stride_glu
                  (kernel_glu / 2) use_bias ;;
  let glu := GLU 1 in
  deconv <- nn.ConvTranspose1d (conv_weight init (DecConv level))
              (conv_bias init (DecConv level))
              in_channels out_channels kernel_conv stride_conv use_bias ;;
  let relu := if use_relu then ReLU else Identity in
  Ok [deconv_glu; glu; deconv; relu].

(** [for i in range(depth)]: the bodies run in order, the first exception
    ends the loop. *)
Fixpoint mapM {A B : Type} (f : A -> result B) (l : list A) : result (list B) :=
  match l with
  | [] => Ok []
  | a :: l' => b <- f a ;; bs <- mapM f l' ;; Ok (b :: bs)
  end.

(** The body of the construction loop at index [i]: one encoder block and
    one decoder block.  [original or i] is true when [original] holds or
    [i] is not 0. *)
Definition build_level (init : Init) (cfg : Config) (i : nat)
    : result (Sequential * Sequential) :=
  let i := Z.of_nat i in
  e <- _build_encoder_block init i (hidden_dim cfg) (growth cfg)
         (stride_conv cfg) (kernel_conv cfg) (stride_glu cfg) (kernel_glu cfg)
         (original cfg || negb (i =? 0)) (use_bias cfg) ;;
  d <- _build_decoder_block init (depth cfg - i - 1) (hidden_dim cfg)
         (growth cfg) (stride_conv cfg) (kernel_conv cfg) (stride_glu cfg)
         (kernel_glu cfg) (depth cfg - i - 1 >? 0) (use_bias cfg) ;;
  Ok (e, d).

(** *** [_rescale_conv] *)

Local Open Scope R_scope.

Definition Rsum (l : list R) : R := fold_right Rplus 0 l.

Definition mean (l : list R) : R := Rsum l / INR (length l).

(** [tensor.std()]: the unbiased estimator (divisor [n - 1]). *)
Definition std (l : list R) : R :=
  sqrt (Rsum (map (fun v => (v - mean l) * (v - mean l)) l)
        / (INR (length l) - 1)).

Definition flatten (w : list (list (list R))) : list R := concat (concat w).

(** The body of the loop of [_rescale_conv] for one module. *)
Definition rescale_module (reference : R) (module : Module) : Module :=
  let rescaled (c : ConvNd) : ConvNd :=
    let std := std (flatten (weight c)) in
    let scale := sqrt (std / reference) in
    mkConv (in_channels c) (out_channels c) (kernel_size c) (stride c)
      (padding c)
      (map (map (map (fun v => v / scale))) (weight c))
      (option_map (map (fun v => v / scale)) (bias c)) in
  match module with
  | Conv1d c => Conv1d (rescaled c)
  | ConvTranspose1d c => ConvTranspose1d (rescaled c)
  | _ => module
  end.

(** [self.modules()] while [_rescale_conv] runs: the encoder and decoder
    module lists, their blocks and the layers of each block.  The
    containers are no convolutions, so the loop changes the layers only. *)
Definition _rescale_conv (reference : R)
    (blocks : list Sequential * list Sequential)
    : list Sequential * list Sequential :=
  (map (map (rescale_module reference)) (fst blocks),
   map (map (rescale_module reference)) (snd blocks)).

Local Open Scope Z_scope.

Record Demucs : Type := mkDemucs {
  config : Config;
  encoder : list Sequential;
  decoder : list Sequential;
  rnn : LSTM;
  linear : Module
}.

(** [Demucs.__init__] *)
Definition construct (init : Init) (cfg : Config) : result Demucs :=
  if negb ((resample cfg =? 1) || (resample cfg =? 2) || (resample cfg =? 4))
  then Raise AssertionError
  else
    blocks <- mapM (build_level init cfg) (seq 0 (levels cfg)) ;;
    let encoder_blocks := map fst blocks in
    let decoder_blocks := map snd blocks in
    let '(encoder, decoder) :=
      if negb (Qeq_bool (rescale cfg) 0)
      then _rescale_conv (Q2R (rescale cfg)) (encoder_blocks, decoder_blocks)
      else (encoder_blocks, decoder_blocks) in
    let encoder_channels :=
      to_int (growth cfg * inject_Z (hidden_dim cfg) * pow2 (depth cfg - 1))%Q in
    rnn <- nn.LSTM (lstm_cell init) encoder_channels encoder_channels 2
             (negb (causal cfg)) (use_bias cfg) ;;
    linear <- (if negb (causal cfg)
               then nn.Linear (linear_weight init) (linear_bias init)
                      (2 * encoder_channels) encoder_channels (use_bias cfg)
               else Ok Identity) ;;
    Ok (mkDemucs cfg encoder decoder rnn linear).

(** ** Shapes: what each tensor operation does to [x.shape] *)

Definition shape : Type := list Z.

(** [x.shape[-1]] *)
Definition last_dim (s : shape) : Z := last s 0.

Definition set_last (s : shape) (n : Z) : shape := removelast s ++ [n].

(** Broadcasting of two shapes, aligned at the last axis. *)
Fixpoint broadcast_rev (a b : list Z) : result (list Z) :=
  match a, b with
  | [], _ => Ok b
  | _, [] => Ok a
  | x :: a', y :: b' =>
      r <- broadcast_rev a' b' ;;
      if x =? y then Ok (x :: r)
      else if x =? 1 then Ok (y :: r)
      else if y =? 1 then Ok (x :: r)
      else Raise RuntimeError
  end.

Definition broadcast (a b : shape) : result shape :=
  r <- broadcast_rev (rev a) (rev b) ;; Ok (rev r).

(** [x.unsqueeze(1)] *)
Definition unsqueeze1 (s : shape) : shape :=
  match s with
  | d0 :: rest => d0 :: 1 :: rest
  | [] => []
  end.

(** [x.mean(dim=1, keepdim=True)] *)
Definition mean_dim1 (s : shape) : shape :=
  match s with
  | d0 :: _ :: rest => d0 :: 1 :: rest
  | _ => s
  end.

(** [F.pad(x, (0, p))]: a negative [p] crops. *)
Definition pad_last (s : shape) (p : Z) : result shape :=
  if last_dim s + p <? 0 then Raise RuntimeError
  else Ok (set_last s (last_dim s + p)).

(** [x[..., :n]] for [0 <= n]. *)
Definition slice_last (s : shape) (n : Z) : shape :=
  set_last s (Z.min (last_dim s) n).

(** Modelled from the spec: the resampler ([resample.py] is not part of the
    sources).  [upsample2] doubles the time length; [downsample2] halves an
    even time length, and the contract says nothing of an odd one. *)
Definition upsample2_shape (s : shape) : result shape :=
  Ok (set_last s (2 * last_dim s)).

Definition downsample2_shape (s : shape) : result shape :=
  if Z.even (last_dim s) then Ok (set_last s (last_dim s / 2))
  else Raise OutsideContract.

(** A convolution takes a [(batch, channel, time)] or [(channel, time)]
    input with [in_channels] channels, a positive stride and at least one
    full kernel window. *)
Definition conv1d_shape (c : ConvNd) (s : shape) : result shape :=
  let out (ch t : Z) (mk : Z -> shape) : result shape :=
    if negb (ch =? in_channels c) then Raise RuntimeError
    else if stride c <=? 0 then Raise RuntimeError
    else if t + 2 * padding c <? kernel_size c then Raise RuntimeError
    else Ok (mk ((t + 2 * padding c - kernel_size c) / stride c + 1)) in
  match s with
  | [b; ch; t] => out ch t (fun t' => [b; out_channels c; t'])
  | [ch; t] => out ch t (fun t' => [out_channels c; t'])
  | _ => Raise RuntimeError
  end.

Definition conv_transpose1d_shape (c : ConvNd) (s : shape) : result shape :=
  let out (ch t : Z) (mk : Z -> shape) : result shape :=
    if negb (ch =? in_channels c) then Raise RuntimeError
    else if stride c <=? 0 then Raise RuntimeError
    else Ok (mk ((t - 1) * stride c - 2 * padding c + kernel_size c)) in
  match s with
  | [b; ch; t] => out ch t (fun t' => [b; out_channels c; t'])
  | [ch; t] => out ch t (fun t' => [out_channels c; t'])
  | _ => Raise RuntimeError
  end.

(** [nn.GLU(dim)]: the axis is split in two halves. *)
Definition glu_shape (dim : Z) (s : shape) : result shape :=
  match nth_error s (Z.to_nat dim) with
  | Some ch =>
      if Z.even ch
      then Ok (firstn (Z.to_nat dim) s ++ [ch / 2] ++ skipn (S (Z.to_nat dim)) s)
      else Raise RuntimeError
  | None => Raise RuntimeError
  end.

Definition linear_shape (l : LinearParams) (s : shape) : result shape :=
  match s with
  | [] => Raise RuntimeError
  | _ => if last_dim s =? in_features l
         then Ok (set_last s (out_features l))
         else Raise RuntimeError
  end.

Definition module_shape (m : Module) (s : shape) : result shape :=
  match m with
  | Conv1d c => conv1d_shape c s
  | ConvTranspose1d c => conv_transpose1d_shape c s
  | ReLU => Ok s
  | Identity => Ok s
  | GLU dim => glu_shape dim s
  | Linear l => linear_shape l s
  end.

(** [nn.Sequential.forward] *)
Fixpoint sequential_shape (block : Sequential) (s : shape) : result shape :=
  match block with
  | [] => Ok s
  | m :: rest => s' <- module_shape m s ;; sequential_shape rest s'
  end.

(** [nn.LSTM] on a [(time, batch, channel)] input. *)
Definition lstm_shape (r : LSTM) (s : shape) : result shape :=
  match s with
  | [t; b; ch] =>
      if ch =? input_size r
      then Ok [t; b; hidden_size r * (if bidirectional r then 2 else 1)]
      else Raise RuntimeError
  | _ => Raise RuntimeError
  end.

(** [x.permute(2, 0, 1)] and [x.permute(1, 2, 0)] *)
Definition permute_201 (s : shape) : result shape :=
  match s with
  | [d0; d1; d2] => Ok [d2; d0; d1]
  | _ => Raise RuntimeError
  end.

Definition permute_120 (s : shape) : result shape :=
  match s with
  | [d0; d1; d2] => Ok [d1; d2; d0]
  | _ => Raise RuntimeError
  end.

(** ** The forward pass on shapes *)

(** [Demucs.bottleneck] *)
Definition bottleneck_shape (m : Demucs) (encoded : shape) : result shape :=
  encoded <- permute_201 encoded ;;
  out <- lstm_shape (rnn m) encoded ;;
  out <- module_shape (linear m) out ;;
  permute_120 out.

(** The upsampling and downsampling cascades of [forward]. *)
Definition resample_shape (step : shape -> result shape) (factor : Z)
    (x : shape) : result shape :=
  if factor =? 2 then step x
  else if factor =? 4 then (x <- step x ;; step x)
  else Ok x.

(** The encoder loop: the skip stack has the most recent output first. *)
Fixpoint encode_shape (blocks : list Sequential) (x : shape) (skips : list shape)
    : result (shape * list shape) :=
  match blocks with
  | [] => Ok (x, skips)
  | encode :: rest =>
      x <- sequential_shape encode x ;;
      encode_shape rest x (x :: skips)
  end.

(** The decoder loop.  Beside the result it returns, for every level it
    reaches, the time length of the decoder input and of the popped skip. *)
Fixpoint decode_shape (blocks : list Sequential) (x : shape) (skips : list shape)
    : list (Z * Z) * result shape :=
  match blocks with
  | [] => ([], Ok x)
  | decode :: rest =>
      match skips with
      | [] => ([], Raise IndexError)
      | skip :: skips =>
          let entry := (last_dim x, last_dim skip) in
          match (x <- broadcast x (slice_last skip (last_dim x)) ;;
                 sequential_shape decode x) with
          | Ok x => let (log, r) := decode_shape rest x skips in (entry :: log, r)
          | Raise e => ([entry], Raise e)
          end
      end
  end.

(** The part of [forward] from the normalisation to the bottleneck, on the
    mono signal. *)
Definition forward_encode (m : Demucs) (x : shape)
    : result (shape * list shape * Z * shape) :=
  let std := if normalize (config m) then set_last x 1 else [] in
  x <- (if normalize (config m) then broadcast x std else Ok x) ;;
  let length := last_dim x in
  valid <- valid_length (config m) length ;;
  x <- pad_last x (valid - length) ;;
  x <- resample_shape upsample2_shape (resample (config m)) x ;;
  xs <- encode_shape (encoder m) x [] ;;
  x <- bottleneck_shape m (fst xs) ;;
  Ok (x, snd xs, length, std).

(** The part of [forward] up to the bottleneck. *)
Definition forward_prefix (m : Demucs) (x : shape)
    : result (shape * list shape * Z * shape) :=
  if (Z.of_nat (length x) <? 2) then Raise AssertionError
  else
    let x := if Z.of_nat (length x) =? 2 then unsqueeze1 x else x in
    let x := mean_dim1 x in
    forward_encode m x.

(** [Demucs.forward]: the decoder log and the shape of the result. *)
Definition forward_log (m : Demucs) (x : shape) : list (Z * Z) * result shape :=
  match forward_prefix m x with
  | Raise e => ([], Raise e)
  | Ok (x, skips, length, std) =>
      let (log, r) := decode_shape (decoder m) x skips in
      (log,
       x <- r ;;
       x <- resample_shape downsample2_shape (resample (config m)) x ;;
       let x := slice_last x length in
       broadcast std x)
  end.

Definition forward_shape (m : Demucs) (x : shape) : result shape :=
  snd (forward_log m x).

(** ** Values: what each tensor operation computes

    A signal of one example is a list of channels, each a list of samples;
    a batch is a list of examples.  The operations are given for operands
    of matching shapes (the shape rules above say when the library raises
    instead). *)

Local Open Scope R_scope.

Definition signal : Type := list (list R).

Fixpoint map2 {A B C : Type} (f : A -> B -> C) (a : list A) (b : list B) : list C :=
  match a, b with
  | x :: a', y :: b' => f x y :: map2 f a' b'
  | _, _ => []
  end.

Definition dot (a b : list R) : R := Rsum (map2 Rmult a b).

Definition vadd (a b : list R) : list R := map2 Rplus a b.

Definition matvec (w : list (list R)) (v : list R) : list R :=
  map (fun row => dot row v) w.

Definition add_bias (b : option (list R)) (v : list R) : list R :=
  match b with
  | Some b => vadd v b
  | None => v
  end.

Definition zeros (n : nat) : list R := repeat 0 n.

(** [x.shape[-1]] of a signal *)
Definition time_length (x : signal) : nat := length (hd [] x).

Definition column (j : nat) (x : signal) : list R :=
  map (fun row => nth j row 0) x.

(** Exchange of the two axes of a signal ([permute] for one example). *)
Definition transpose (x : signal) : signal :=
  map (fun j => column j x) (seq 0 (time_length x)).

Definition sigmoid (v : R) : R := 1 / (1 + exp (- v)).

(** The output length of a convolution over [t] samples. *)
Definition conv_out_length (c : ConvNd) (t : nat) : nat :=
  Z.to_nat ((Z.of_nat t + 2 * padding c - kernel_size c) / stride c + 1).

(** [nn.Conv1d]: [weight] has shape [(out_channels, in_channels, kernel)];
    output sample [j] of channel [o] is the bias plus the sum over the input
    channels of the kernel applied at offset [j * stride] of the zero-padded
    input. *)
Definition conv1d (c : ConvNd) (x : signal) : signal :=
  let p := Z.to_nat (padding c) in
  let xp := map (fun row => zeros p ++ row ++ zeros p) x in
  map (fun o =>
         map (fun j =>
                nth o (match bias c with Some b => b | None => [] end) 0
                + Rsum (map2 (fun wrow xrow =>
                                dot wrow (skipn (j * Z.to_nat (stride c)) xrow))
                             (nth o (weight c) []) xp))
             (seq 0 (conv_out_length c (time_length x))))
      (seq 0 (Z.to_nat (out_channels c))).

(** [nn.ConvTranspose1d] (no padding): [weight] has shape
    [(in_channels, out_channels, kernel)]; input sample [j] of channel [ch]
    contributes [x * weight[ch][o][i - j * stride]] to output sample [i]. *)
Definition conv_transpose1d (c : ConvNd) (x : signal) : signal :=
  let s := Z.to_nat (stride c) in
  let k := Z.to_nat (kernel_size c) in
  let t := time_length x in
  map (fun o =>
         map (fun i =>
                nth o (match bias c with Some b => b | None => [] end) 0
                + Rsum (map2 (fun wch xrow =>
                                Rsum (map (fun j =>
                                             if ((j * s <=? i) && (i <? j * s + k))%nat
                                             then nth j xrow 0
                                                  * nth (i - j * s) (nth o wch []) 0
                                             else 0)
                                          (seq 0 t)))
                             (weight c) x))
             (seq 0 ((t - 1) * s + k)))
      (seq 0 (Z.to_nat (out_channels c))).

(** [nn.GLU(dim=1)]: the first half of the channels gated by the sigmoid of
    the second half. *)
Definition glu (x : signal) : signal :=
  let h := Nat.div (length x) 2 in
  map2 (map2 (fun a b => a * sigmoid b)) (firstn h x) (skipn h x).

(** [nn.Linear] on every time step of a time-major sequence. *)
Definition linear_apply (l : LinearParams) (xs : list (list R)) : list (list R) :=
  map (fun v => add_bias (lin_bias l) (matvec (lin_weight l) v)) xs.

Definition module_apply (m : Module) (x : signal) : signal :=
  match m with
  | Conv1d c => conv1d c x
  | ConvTranspose1d c => conv_transpose1d c x
  | ReLU => map (map (Rmax 0)) x
  | Identity => x
  | GLU _ => glu x
  | Linear l => transpose (linear_apply l (transpose x))
  end.

Definition sequential_apply (block : Sequential) (x : signal) : signal :=
  fold_left (fun x m => module_apply m x) block x.

(** One time step of an LSTM cell: gates in the order input, forget, cell,
    output. *)
Definition lstm_step (h_size : nat) (p : LSTMCell) (state : list R * list R)
    (x : list R) : list R * list R :=
  let (h, c) := state in
  let z := vadd (add_bias (bias_ih p) (matvec (weight_ih p) x))
                (add_bias (bias_hh p) (matvec (weight_hh p) h)) in
  let i := map sigmoid (firstn h_size z) in
  let f := map sigmoid (firstn h_size (skipn h_size z)) in
  let g := map tanh (firstn h_size (skipn (2 * h_size) z)) in
  let o := map sigmoid (firstn h_size (skipn (3 * h_size) z)) in
  let c' := vadd (map2 Rmult f c) (map2 Rmult i g) in
  (map2 Rmult o (map tanh c'), c').

(** The recurrence over a time-major sequence: the output at each step is
    the hidden state after it. *)
Fixpoint lstm_scan (h_size : nat) (p : LSTMCell) (state : list R * list R)
    (xs : list (list R)) : list (list R) :=
  match xs with
  | [] => []
  | x :: xs' =>
      let state' := lstm_step h_size p state x in
      fst state' :: lstm_scan h_size p state' xs'
  end.

(** One layer: the forward recurrence and, when bidirectional, the
    recurrence over the reversed sequence, concatenated per time step. *)
Definition lstm_layer (h_size : nat) (dirs : LSTMCell * option LSTMCell)
    (xs : list (list R)) : list (list R) :=
  let init := (zeros h_size, zeros h_size) in
  let fwd := lstm_scan h_size (fst dirs) init xs in
  match snd dirs with
  | None => fwd
  | Some p => map2 (@app R) fwd (rev (lstm_scan h_size p init (rev xs)))
  end.

(** [nn.LSTM] on one example, time-major. *)
Definition lstm_apply (r : LSTM) (xs : list (list R)) : list (list R) :=
  fold_left (fun xs dirs => lstm_layer (Z.to_nat (hidden_size r)) dirs xs)
            (cells r) xs.

(** Modelled from the spec: the resampler ([resample.py] is not part of the
    sources), one operator per direction acting on each channel.  Its filter
    is left open; only the time lengths are specified. *)
Record Resampler : Type := mkResampler {
  upsample2 : list R -> list R;
  downsample2 : list R -> list R
}.

(** ** The forward pass on values *)

(** [Demucs.bottleneck] for one example. *)
Definition bottleneck_example (m : Demucs) (encoded : signal) : signal :=
  let encoded := transpose encoded in
  let out := lstm_apply (rnn m) encoded in
  let out := match linear m with
             | Linear l => linear_apply l out
             | _ => out
             end in
  transpose out.

Definition bottleneck (m : Demucs) (encoded : list signal) : list signal :=
  map (bottleneck_example m) encoded.

(** [F.pad(x, (0, p))] on a channel. *)
Definition pad_row (p : Z) (row : list R) : list R :=
  if (p <? 0)%Z then firstn (Z.to_nat (Z.of_nat (length row) + p)) row
  else row ++ zeros (Z.to_nat p).

Definition resample_rows (step : list R -> list R) (factor : Z) (x : signal)
    : signal :=
  if (factor =? 2)%Z then map step x
  else if (factor =? 4)%Z then map step (map step x)
  else x.

(** [x + skip[..., :x.shape[-1]]] on a channel, with the broadcast of a
    one-sample operand. *)
Definition add_rows (a b : list R) : list R :=
  match a, b with
  | [u], _ :: _ :: _ => map (Rplus u) b
  | _ :: _ :: _, [v] => map (fun u => u + v) a
  | _, _ => map2 Rplus a b
  end.

Fixpoint encode_loop (blocks : list Sequential) (x : signal) (skips : list signal)
    : signal * list signal :=
  match blocks with
  | [] => (x, skips)
  | encode :: rest =>
      let x := sequential_apply encode x in
      encode_loop rest x (x :: skips)
  end.

Fixpoint decode_loop (blocks : list Sequential) (x : signal) (skips : list signal)
    : result signal :=
  match blocks with
  | [] => Ok x
  | decode :: rest =>
      match skips with
      | [] => Raise IndexError
      | skip :: skips =>
          let x := map2 add_rows x (map (firstn (time_length x)) skip) in
          decode_loop rest (sequential_apply decode x) skips
      end
  end.

(** [x.mean(dim=1, keepdim=True)] for one example. *)
Definition mono (x : signal) : signal :=
  [map (fun j => mean (column j x)) (seq 0 (time_length x))].

(** [x.std(dim=-1, keepdim=True)] of the mono signal. *)
Definition std_last (x : signal) : R := std (hd [] x).

(** The part of [forward] between the normalisation and the final
    multiplication: pad, upsample, encode, bottleneck, decode, downsample,
    trim. *)
Definition network (rs : Resampler) (m : Demucs) (x : signal) : result signal :=
  let length := time_length x in
  valid <- valid_length (config m) (Z.of_nat length) ;;
  let x := map (pad_row (valid - Z.of_nat length)) x in
  let x := resample_rows (upsample2 rs) (resample (config m)) x in
  let (x, skips) := encode_loop (encoder m) x [] in
  let x := bottleneck_example m x in
  x <- decode_loop (decoder m) x skips ;;
  let x := resample_rows (downsample2 rs) (resample (config m)) x in
  Ok (map (firstn length) x).

(** [Demucs.forward] for one example with a channel axis. *)
Definition forward_example (rs : Resampler) (m : Demucs) (x : signal)
    : result signal :=
  let x := mono x in
  let std := if normalize (config m) then std_last x else 1 in
  let x := if normalize (config m)
           then map (map (fun v => v / (1 / 1000 + std))) x
           else x in
  x <- network rs m x ;;
  Ok (map (map (Rmult std)) x).

(** The shape of a batch of signals, when it has one. *)
Definition shape_of (x : list signal) : option shape :=
  let c := length (hd [] x) in
  let t := time_length (hd [] x) in
  if forallb (fun e => (length e =? c)%nat
                       && forallb (fun row => (length row =? t)%nat) e) x
  then Some [Z.of_nat (length x); Z.of_nat c; Z.of_nat t]
  else None.

(** [Demucs.forward] on a [(batch, channel, time)] input: the library's
    shape checks, then the values. *)
Definition forward (rs : Resampler) (m : Demucs) (x : list signal)
    : result (list signal) :=
  match shape_of x with
  | None => Raise OutsideContract
  | Some s =>
      _ <- forward_shape m s ;;
      mapM (forward_example rs m) x
  end.

(** ** What construction builds, layer by layer *)

Local Open Scope Z_scope.

(** [int(hidden_dim * growth * 2 ** level)] *)
Definition channels_at (cfg : Config) (level : Z) : Z :=
  to_int (inject_Z (hidden_dim cfg) * growth cfg * pow2 level)%Q.

(** The channels on the signal side of a level: 1 at level 0. *)
Definition outer_channels (cfg : Config) (level : Z) : Z :=
  if level =? 0 then 1 else channels_at cfg (level - 1).

Definition activation (use_relu : bool) : Module :=
  if use_relu then ReLU else Identity.

Definition optional (use_bias : bool) (b : list R) : option (list R) :=
  if use_bias then Some b else None.

(** The encoder block of loop index [i] as the library creates it. *)
Definition encoder_block (init : Init) (cfg : Config) (i : nat) : Sequential :=
  let level := Z.of_nat i in
  [ Conv1d (mkConv (outer_channels cfg level) (channels_at cfg level)
              (kernel_conv cfg) (stride_conv cfg) 0
              (conv_weight init (EncConv level))
              (optional (use_bias cfg) (conv_bias init (EncConv level))));
    activation (original cfg || negb (level =? 0));
    Conv1d (mkConv (channels_at cfg level) (2 * channels_at cfg level)
              (kernel_glu cfg) (stride_glu cfg) (kernel_glu cfg / 2)
              (conv_weight init (EncGlu level))
              (optional (use_bias cfg) (conv_bias init (EncGlu level))));
    GLU 1 ].

(** The decoder block of loop index [i] (level [depth - i - 1]) as the
    library creates it. *)
Definition decoder_block (init : Init) (cfg : Config) (i : nat) : Sequential :=
  let level := depth cfg - Z.of_nat i - 1 in
  [ Conv1d (mkConv (channels_at cfg level) (2 * channels_at cfg level)
              (kernel_glu cfg) (stride_glu cfg) (kernel_glu cfg / 2)
              (conv_weight init (DecGlu level))
              (optional (use_bias cfg) (conv_bias init (DecGlu level))));
    GLU 1;
    ConvTranspose1d (mkConv (channels_at cfg level) (outer_channels cfg level)
              (kernel_conv cfg) (stride_conv cfg) 0
              (conv_weight init (DecConv level))
              (optional (use_bias cfg) (conv_bias init (DecConv level))));
    activation (level >? 0) ].

(** [encoder_channels] of [__init__] *)
Definition encoder_channels (cfg : Config) : Z :=
  to_int (growth cfg * inject_Z (hidden_dim cfg) * pow2 (depth cfg - 1))%Q.

(** The pass over the blocks that [__init__] makes for its [rescale]. *)
Definition rescale_pass (cfg : Config) (module : Module) : Module :=
  if negb (Qeq_bool (rescale cfg) 0)
  then rescale_module (Q2R (rescale cfg)) module
  else module.

(** The same configuration with [rescale = 0]: no rescaling pass. *)
Definition without_rescale (cfg : Config) : Config :=
  mkConfig (hidden_dim cfg) (growth cfg) (depth cfg) (causal cfg)
    (resample cfg) 0 (stride_conv cfg) (kernel_conv cfg) (stride_glu cfg)
    (kernel_glu cfg) (original cfg) (use_bias cfg) (normalize cfg).

(** The layers of the encoder and decoder blocks, in the order of
    [self.modules()], and every module of the model that can hold a
    convolution. *)
Definition layers (m : Demucs) : list Module :=
  concat (encoder m) ++ concat (decoder m).

Definition all_modules (m : Demucs) : list Module :=
  layers m ++ [linear m].




(** A configuration the constructor is certain to accept. *)
Definition well_formed (cfg : Config) : Prop :=
  (resample cfg = 1 \/ resample cfg = 2 \/ resample cfg = 4)
  /\ 1 <= depth cfg
  /\ (1 <= inject_Z (hidden_dim cfg) * growth cfg)%Q
  /\ 1 <= kernel_conv cfg /\ 1 <= kernel_glu cfg.

(** Empty initial parameters, for the examples that only look at shapes. *)
Definition no_init : Init :=
  mkInit (fun _ => []) (fun _ => []) (fun _ _ => mkCell [] [] None None) [] [].

(** The default configuration with [depth = 0]. *)
Definition depth0_config : Config :=
  {| hidden_dim := 64; growth := 1; depth := 0; causal := true;
     resample := 4; rescale := 1 # 10; stride_conv := 4; kernel_conv := 8;
     stride_glu := 1; kernel_glu := 1; original := true; use_bias := true;
     normalize := true |}.

(** The activations C9 names, by position in the module lists. *)
Definition activations_placed (cfg : Config) (m : Demucs) : Prop :=
  length (encoder m) = levels cfg
  /\ length (decoder m) = levels cfg
  /\ (forall (i : nat) (block : Sequential),
        nth_error (encoder m) i = Some block ->
        exists c c' : ConvNd,
          block = [Conv1d c;
                   if (i =? 0)%nat && negb (original cfg) then Identity else ReLU;
                   Conv1d c'; GLU 1])
  /\ (forall (i : nat) (block : Sequential),
        nth_error (decoder m) i = Some block ->
        exists c c' : ConvNd,
          block = [Conv1d c; GLU 1; ConvTranspose1d c';
                   if (S i =? levels cfg)%nat then Identity else ReLU]
          /\ (S i = levels cfg -> out_channels c' = 1)).

(** The gated convolutions keep the time length: stride 1 and an odd kernel
    (padded by [kernel_glu // 2] on both sides); the strided convolutions
    have a positive stride. *)
Definition same_length_gates (cfg : Config) : Prop :=
  stride_glu cfg = 1 /\ Z.odd (kernel_glu cfg) = true /\ 1 <= stride_conv cfg.


(** The default configuration with a gated kernel of 3, and of 2. *)
Definition glu3_config : Config :=
  {| hidden_dim := 64; growth := 1; depth := 5; causal := true;
     resample := 4; rescale := 1 # 10; stride_conv := 4; kernel_conv := 8;
     stride_glu := 1; kernel_glu := 3; original := true; use_bias := true;
     normalize := true |}.

Definition glu2_config : Config :=
  {| hidden_dim := 64; growth := 1; depth := 5; causal := true;
     resample := 4; rescale := 1 # 10; stride_conv := 4; kernel_conv := 8;
     stride_glu := 1; kernel_glu := 2; original := true; use_bias := true;
     normalize := true |}.



(** ** Agreement of signals before a time step, and scaling *)

(** The samples before time [t] are the same in every channel. *)
Definition same_before (t : nat) (x y : signal) : Prop :=
  forall c j : nat, (j < t)%nat -> nth j (nth c x []) 0%R = nth j (nth c y []) 0%R.

Definition same_shape (x y : signal) : Prop :=
  length x = length y /\ time_length x = time_length y.

(** [k * x] *)
Definition scale (k : R) (x : signal) : signal := map (map (Rmult k)) x.


(** ** A small model with synthetic weights

    One level, one hidden channel, no resampling; the convolutions sum
    their window, the gates are held at [sigmoid 0] and the recurrent
    weights are zero. *)

Definition ones8 : list R := [1; 1; 1; 1; 1; 1; 1; 1]%R.

Definition toy_cell : LSTMCell :=
  (mkCell [[0]; [0]; [0]; [0]] [[0]; [0]; [0]; [0]]
     (Some [0; 0; 0; 0]) (Some [0; 0; 0; 0]))%R.

Definition toy_init : Init :=
  mkInit (fun s => match s with
                   | EncConv _ | DecConv _ => [[ones8]]
                   | EncGlu _ | DecGlu _ => [[[1]]; [[0]]]
                   end)%R
         (fun s => match s with
                   | EncConv _ | DecConv _ => [0]
                   | EncGlu _ | DecGlu _ => [0; 0]
                   end)%R
         (fun _ _ => toy_cell)
         [] [].

Definition toy_config (normalize : bool) : Config :=
  {| hidden_dim := 1; growth := 1; depth := 1; causal := true;
     resample := 1; rescale := 0; stride_conv := 4; kernel_conv := 8;
     stride_glu := 1; kernel_glu := 1; original := true; use_bias := true;
     normalize := normalize |}.

Definition toy_model (normalize : bool) : Demucs :=
  mkDemucs (toy_config normalize)
    [[Conv1d (mkConv 1 1 8 4 0 [[ones8]] (Some [0%R]));
      ReLU;
      Conv1d (mkConv 1 2 1 1 0 [[[1]]; [[0]]] (Some [0; 0]))%R;
      GLU 1]]
    [[Conv1d (mkConv 1 2 1 1 0 [[[1]]; [[0]]] (Some [0; 0]))%R;
      GLU 1;
      ConvTranspose1d (mkConv 1 1 8 4 0 [[ones8]] (Some [0%R]));
      Identity]]
    (mkLSTM 1 1 2 false [(toy_cell, None); (toy_cell, None)])
    Identity.

(** ** The properties C2 and C7 name, for a function on batches *)

(** Changing samples at times [>= t] leaves the output before [t]
    unchanged. *)
Definition non_anticipating (f : list signal -> result (list signal)) : Prop :=
  forall (t : nat) (xs ys out_x out_y : list signal),
    Forall2 (fun x y => same_shape x y /\ same_before t x y) xs ys ->
    f xs = Ok out_x -> f ys = Ok out_y ->
    Forall2 (same_before t) out_x out_y.


(** ** [total_stride] and [encode] *)

Local Open Scope Z_scope.

(** [Demucs.total_stride]:
    [(stride_conv * stride_glu) ** depth // resample].  With a negative
    [depth] the power is a float (and [0 ** depth] raises); the value
    returned is the floor of the quotient in either case. *)
Definition total_stride (cfg : Config) : result Z :=
  let base := stride_conv cfg * stride_glu cfg in
  if (depth cfg <? 0) && (base =? 0) then Raise ZeroDivisionError
  else if resample cfg =? 0 then Raise ZeroDivisionError
  else if depth cfg <? 0
       then Ok (Qfloor (Qpower (inject_Z base) (depth cfg)
                        / inject_Z (resample cfg))%Q)
       else Ok (base ^ depth cfg / resample cfg).

(** The loop [for encode in self.encoder: x = encode(x)] of [encode], on
    shapes. *)
Fixpoint encoder_shape (blocks : list Sequential) (x : shape) : result shape :=
  match blocks with
  | [] => Ok x
  | encode :: rest => x <- sequential_shape encode x ;; encoder_shape rest x
  end.

(** The part of [encode] from the normalisation on, on the mono signal. *)
Definition encode_mono (m : Demucs) (x : shape) : result shape :=
  x <- (if normalize (config m) then broadcast x (set_last x 1) else Ok x) ;;
  let length := last_dim x in
  valid <- valid_length (config m) length ;;
  x <- pad_last x (valid - length) ;;
  x <- resample_shape upsample2_shape (resample (config m)) x ;;
  encoder_shape (encoder m) x.

(** [Demucs.encode] on shapes: the encoder output, no skip kept and no
    bottleneck. *)
Definition encode_output_shape (m : Demucs) (x : shape) : result shape :=
  if (Z.of_nat (length x) <? 2) then Raise AssertionError
  else
    let x := if Z.of_nat (length x) =? 2 then unsqueeze1 x else x in
    let x := mean_dim1 x in
    encode_mono m x.



(** No bias in a module. *)
Definition bias_free (module : Module) : Prop :=
  match module with
  | Conv1d c | ConvTranspose1d c => bias c = None
  | Linear l => lin_bias l = None
  | _ => True
  end.

Definition cell_bias_free (c : LSTMCell) : Prop :=
  bias_ih c = None /\ bias_hh c = None.

(** The default configuration without biases and with a bidirectional
    bottleneck. *)
Definition no_bias_config : Config :=
  {| hidden_dim := 64; growth := 1; depth := 5; causal := false;
     resample := 4; rescale := 1 # 10; stride_conv := 4; kernel_conv := 8;
     stride_glu := 1; kernel_glu := 1; original := true; use_bias := false;
     normalize := true |}.


(** Neither direction of a recurrent layer has a bias. *)
Definition layer_bias_free (dirs : LSTMCell * option LSTMCell) : Prop :=
  cell_bias_free (fst dirs)
  /\ match snd dirs with
     | Some c => cell_bias_free c
     | None => True
     end.

(** The decoder block [d] takes the channels the encoder block [e] returns
    and returns the channels [e] takes, with the kernel and stride of [e]
    in its transposed convolution; the gated convolutions double the
    channels that the GLU halves. *)
Definition mirrors (e d : Sequential) : Prop :=
  match e, d with
  | [Conv1d c1; _; Conv1d c2; GLU _],
    [Conv1d d1; GLU _; ConvTranspose1d d2; _] =>
      in_channels c2 = out_channels c1
      /\ out_channels c2 = 2 * out_channels c1
      /\ in_channels d1 = out_channels c1
      /\ out_channels d1 = 2 * in_channels d1
      /\ in_channels d2 = in_channels d1
      /\ out_channels d2 = in_channels c1
      /\ kernel_size d2 = kernel_size c1
      /\ stride d2 = stride c1
  | _, _ => False
  end.

(** [module.weight.std()] *)
Definition weight_deviation (c : ConvNd) : R := std (flatten (weight c)).

(** The weight of the convolution [b] has the geometric mean of
    [reference] and the deviation of the weight of [a] as its deviation,
    when the latter is positive; nothing is said of other modules. *)
Definition deviation_moved (reference : R) (a b : Module) : Prop :=
  match a, b with
  | Conv1d c, Conv1d c' | ConvTranspose1d c, ConvTranspose1d c' =>
      (0 < weight_deviation c)%R ->
      weight_deviation c' = sqrt (weight_deviation c * reference)
  | _, _ => True
  end.

(** * Theorems *)

(** ** [valid_length] *)

Section ValidLength.

Local Open Scope Z_scope.

Lemma ceil_quot_bounds (a b : Z) :
  0 < b -> a <= b * ceil_quot a b < a + b.
Proof.
  intros Hb. unfold ceil_quot.
  pose proof (Z.div_mod (- a) b ltac:(lia)) as E.
  pose proof (Z.mod_pos_bound (- a) b Hb) as B.
  nia.
Qed.

Lemma ceil_quot_mul (m b : Z) : 0 < b -> ceil_quot (m * b) b = m.
Proof.
  intros Hb. unfold ceil_quot.
  replace (- (m * b)) with ((- m) * b) by ring.
  rewrite Z.div_mul by lia. ring.
Qed.


Lemma ceil_quot_exact (a b : Z) :
  0 < b -> a mod b = 0 -> b * ceil_quot a b = a.
Proof.
  intros Hb Hm.
  apply Z.mod_divide in Hm; [| lia]. destruct Hm as [c ->].
  rewrite ceil_quot_mul by lia. ring.
Qed.

Lemma ceil_div_ok (a b : Z) : b <> 0 -> ceil_div a b = Ok (ceil_quot a b).
Proof.
  intros Hb. unfold ceil_div.
  destruct (Z.eqb_spec b 0); [contradiction | reflexivity].
Qed.

Lemma conv_length_ok (k s l : Z) :
  s <> 0 -> conv_length k s l = Ok (conv_out k s l).
Proof.
  intros Hs. unfold conv_length. rewrite ceil_div_ok by exact Hs.
  reflexivity.
Qed.

Lemma conv_out_ge_1 (k s l : Z) : 1 <= conv_out k s l.
Proof. unfold conv_out. lia. Qed.

Lemma conv_out_unit (l : Z) : 1 <= l -> conv_out 1 1 l = l.
Proof.
  intros Hl. unfold conv_out, ceil_quot. rewrite Z.div_1_r. lia.
Qed.



(** A convolution followed by its transpose never shortens. *)
Lemma decoded_conv_out (k s l : Z) :
  0 < s -> l <= (conv_out k s l - 1) * s + k.
Proof.
  intros Hs. unfold conv_out.
  pose proof (@ceil_quot_bounds (l - k) s Hs). nia.
Qed.

Lemma iterM_pure {A : Type} (f : A -> result A) (g : A -> A) (n : nat) :
  (forall y, f y = Ok (g y)) ->
  forall x, iterM n f x = Ok (Nat.iter n g x).
Proof.
  intros Hf. induction n as [| n IH]; intros x.
  - reflexivity.
  - rewrite Nat.iter_succ_r. simpl. rewrite Hf. simpl. apply IH.
Qed.

Variable cfg : Config.
Hypothesis Haligned : aligned cfg.

Let k := kernel_conv cfg.
Let s := stride_conv cfg.
Let r := resample cfg.
Let enc := conv_out k s.
Let dec := decoder_length cfg.
Let n := levels cfg.

(** The length before the final division in [valid_length]. *)
Let decoded (l : Z) : Z := decoded_length cfg l.

Lemma encoder_length_aligned (l : Z) : encoder_length cfg l = Ok (enc l).
Proof.
  destruct Haligned as (Hkg & Hsg & Hs & _).
  unfold encoder_length. rewrite conv_length_ok by lia. simpl.
  rewrite Hkg, Hsg. rewrite conv_length_ok by lia.
  rewrite conv_out_unit by apply conv_out_ge_1. reflexivity.
Qed.

Lemma valid_length_aligned (l : Z) :
  valid_length cfg l = Ok (ceil_quot (decoded l) r).
Proof.
  unfold valid_length.
  rewrite (iterM_pure (encoder_length cfg) enc) by apply encoder_length_aligned.
  simpl. apply ceil_div_ok. destruct Haligned as (_ & _ & _ & _ & Hr & _).
  subst r. lia.
Qed.

Lemma dec_ge_1 (m : Z) : 1 <= m -> 1 <= dec m.
Proof.
  destruct Haligned as (_ & _ & Hs & Hk & _).
  intros Hm. unfold dec, decoder_length. nia.
Qed.

Lemma iter_dec_ge_1 (j : nat) (m : Z) : 1 <= m -> 1 <= Nat.iter j dec m.
Proof.
  intros Hm. induction j as [| j IH]; simpl; [exact Hm |].
  apply dec_ge_1, IH.
Qed.

Lemma dec_mono (m m' : Z) : m <= m' -> dec m <= dec m'.
Proof.
  destruct Haligned as (_ & _ & Hs & _).
  intros Hm. unfold dec, decoder_length. nia.
Qed.




(** Decoding the encoded lengths never shortens. *)
Lemma iter_dec_enc (j : nat) (l : Z) :
  l <= Nat.iter j dec (Nat.iter j enc l).
Proof.
  destruct Haligned as (_ & _ & Hs & _).
  revert l. induction j as [| j IH]; intros l; [simpl; lia |].
  rewrite Nat.iter_succ_r with (f := enc). simpl.
  transitivity (dec (enc l)).
  - unfold dec, decoder_length, enc. apply decoded_conv_out. fold s. lia.
  - apply dec_mono, IH.
Qed.

Lemma dec_divisible (m : Z) : dec m mod r = 0.
Proof.
  destruct Haligned as (_ & _ & _ & _ & Hr & Hsr & Hkr).
  fold r in Hr, Hsr, Hkr.
  apply Z.mod_divide in Hsr; [| lia]. apply Z.mod_divide in Hkr; [| lia].
  apply Z.mod_divide; [lia |].
  unfold dec, decoder_length.
  apply Z.divide_add_r; [apply Z.divide_mul_r |]; assumption.
Qed.

Lemma decoded_divisible (l : Z) : decoded l mod r = 0.
Proof.
  unfold decoded, decoded_length, bottleneck_length; fold k s r enc dec n. destruct n as [| j]; simpl.
  - apply Z.mod_mul. destruct Haligned as (_ & _ & _ & _ & Hr & _).
    subst r. lia.
  - apply dec_divisible.
Qed.

Lemma decoded_exact (l : Z) : ceil_quot (decoded l) r * r = decoded l.
Proof.
  destruct Haligned as (_ & _ & _ & _ & Hr & _). fold r in Hr.
  rewrite Z.mul_comm. apply ceil_quot_exact; [lia |].
  apply decoded_divisible.
Qed.



Lemma valid_length_ge (l : Z) : l <= ceil_quot (decoded l) r.
Proof.
  destruct Haligned as (_ & _ & _ & _ & Hr & _). fold r in Hr.
  pose proof (decoded_exact l) as E.
  pose proof (iter_dec_enc n (l * r)) as G. change (l * r <= decoded l) in G.
  nia.
Qed.





End ValidLength.





(** ** Construction *)

Section Construction.

Local Open Scope Z_scope.

Lemma mapM_inv {A B : Type} (f : A -> result B) (g : A -> B) (l : list A) :
  (forall a b, In a l -> f a = Ok b -> b = g a) ->
  forall bs, mapM f l = Ok bs -> bs = map g l.
Proof.
  induction l as [| a l IH]; intros Hf bs H; simpl in H.
  - injection H as <-. reflexivity.
  - destruct (f a) as [b |] eqn:Ea; simpl in H; [| discriminate].
    destruct (mapM f l) as [bs' |] eqn:El; simpl in H; [| discriminate].
    injection H as <-. simpl. f_equal.
    + apply Hf; [left; reflexivity | exact Ea].
    + apply IH; [| reflexivity]. intros a' b' Hin. apply Hf. right. exact Hin.
Qed.

Lemma mapM_ok {A B : Type} (f : A -> result B) (g : A -> B) (l : list A) :
  (forall a, In a l -> f a = Ok (g a)) -> mapM f l = Ok (map g l).
Proof.
  induction l as [| a l IH]; intros Hf; simpl; [reflexivity |].
  rewrite Hf by (left; reflexivity). simpl.
  rewrite IH by (intros a' Hin; apply Hf; right; exact Hin).
  reflexivity.
Qed.

Variable init : Init.
Variable cfg : Config.

Lemma build_level_inv (i : nat) (p : Sequential * Sequential) :
  build_level init cfg i = Ok p ->
  p = (encoder_block init cfg i, decoder_block init cfg i).
Proof.
  unfold build_level, _build_encoder_block, _build_decoder_block,
    nn.Conv1d, nn.ConvTranspose1d.
  repeat match goal with
         | |- context [if ?b then Raise _ else _] => destruct b; simpl
         end; intros H; try discriminate H.
  injection H as <-. reflexivity.
Qed.

Lemma Conv1d_ok (w : list (list (list R))) (b : list R)
    (i o k s p : Z) (ub : bool) :
  0 <= i -> 0 <= o -> 0 <= k ->
  nn.Conv1d w b i o k s p ub = Ok (Conv1d (mkConv i o k s p w (optional ub b))).
Proof.
  intros Hi Ho Hk. unfold nn.Conv1d.
  destruct (Z.ltb_spec i 0); [lia |].
  destruct (Z.ltb_spec o 0); [lia |].
  destruct (Z.ltb_spec k 0); [lia |]. reflexivity.
Qed.

Lemma ConvTranspose1d_ok (w : list (list (list R))) (b : list R)
    (i o k s : Z) (ub : bool) :
  0 <= i -> 0 <= o -> 0 <= k ->
  nn.ConvTranspose1d w b i o k s ub
  = Ok (ConvTranspose1d (mkConv i o k s 0 w (optional ub b))).
Proof.
  intros Hi Ho Hk. unfold nn.ConvTranspose1d.
  destruct (Z.ltb_spec i 0); [lia |].
  destruct (Z.ltb_spec o 0); [lia |].
  destruct (Z.ltb_spec k 0); [lia |]. reflexivity.
Qed.

Lemma build_level_ok (i : nat) :
  0 <= kernel_conv cfg -> 0 <= kernel_glu cfg ->
  0 <= channels_at cfg (Z.of_nat i) ->
  0 <= outer_channels cfg (Z.of_nat i) ->
  0 <= channels_at cfg (depth cfg - Z.of_nat i - 1) ->
  0 <= outer_channels cfg (depth cfg - Z.of_nat i - 1) ->
  build_level init cfg i = Ok (encoder_block init cfg i, decoder_block init cfg i).
Proof.
  intros Hk Hg H1 H2 H3 H4.
  unfold build_level, _build_encoder_block, _build_decoder_block.
  unfold outer_channels, channels_at in *.
  repeat (first [rewrite Conv1d_ok by (assumption || lia)
                | rewrite ConvTranspose1d_ok by (assumption || lia)];
          cbn [bind]).
  reflexivity.
Qed.

Lemma rescale_choice (E D : list Sequential) :
  (if negb (Qeq_bool (rescale cfg) 0)
   then _rescale_conv (Q2R (rescale cfg)) (E, D)
   else (E, D))
  = (map (map (rescale_pass cfg)) E, map (map (rescale_pass cfg)) D).
Proof.
  unfold rescale_pass, _rescale_conv.
  destruct (negb (Qeq_bool (rescale cfg) 0)); simpl; [reflexivity |].
  f_equal; symmetry; (etransitivity; [| apply map_id]);
    apply map_ext; intros; apply map_id.
Qed.

(** What a successful construction has built. *)
Lemma construct_inv (m : Demucs) :
  construct init cfg = Ok m ->
  (resample cfg = 1 \/ resample cfg = 2 \/ resample cfg = 4)
  /\ config m = cfg
  /\ encoder m = map (fun i => map (rescale_pass cfg) (encoder_block init cfg i))
                     (seq 0 (levels cfg))
  /\ decoder m = map (fun i => map (rescale_pass cfg) (decoder_block init cfg i))
                     (seq 0 (levels cfg))
  /\ nn.LSTM (lstm_cell init) (encoder_channels cfg) (encoder_channels cfg) 2
       (negb (causal cfg)) (use_bias cfg) = Ok (rnn m)
  /\ (if causal cfg then linear m = Identity
      else nn.Linear (linear_weight init) (linear_bias init)
             (2 * encoder_channels cfg) (encoder_channels cfg) (use_bias cfg)
           = Ok (linear m)).
Proof.
  unfold construct. intros H.
  destruct ((resample cfg =? 1) || (resample cfg =? 2) || (resample cfg =? 4))
    eqn:Er; simpl in H; [| discriminate].
  destruct (mapM (build_level init cfg) (seq 0 (levels cfg))) as [blocks |]
    eqn:Eb; simpl in H; [| discriminate].
  apply (mapM_inv _ (fun i => (encoder_block init cfg i, decoder_block init cfg i)))
    in Eb; [| intros a b _; apply build_level_inv].
  fold (encoder_channels cfg) in H.
  subst blocks. rewrite rescale_choice, !map_map in H. cbn [fst snd] in H.
  destruct (nn.LSTM _ _ _ _ _ _) as [r |] eqn:El; simpl in H; [| discriminate].
  split.
  { apply orb_true_iff in Er. destruct Er as [Er | Er].
    - apply orb_true_iff in Er. destruct Er as [Er | Er];
        apply Z.eqb_eq in Er; auto.
    - apply Z.eqb_eq in Er; auto. }
  destruct (causal cfg); simpl in H.
  - injection H as <-. simpl. repeat split; reflexivity.
  - destruct (nn.Linear _ _ _ _ _) as [l |] eqn:Elin; simpl in H;
      [| discriminate].
    injection H as <-. simpl. repeat split; reflexivity.
Qed.

Lemma construct_without_rescale (m : Demucs) :
  construct init cfg = Ok m ->
  construct init (without_rescale cfg)
  = Ok (mkDemucs (without_rescale cfg)
          (map (encoder_block init cfg) (seq 0 (levels cfg)))
          (map (decoder_block init cfg) (seq 0 (levels cfg)))
          (rnn m) (linear m)).
Proof.
  intros H. pose proof (construct_inv H) as (_ & _ & _ & _ & Hr & Hl).
  revert H. unfold construct.
  change (resample (without_rescale cfg)) with (resample cfg).
  change (build_level init (without_rescale cfg)) with (build_level init cfg).
  change (levels (without_rescale cfg)) with (levels cfg).
  change (rescale (without_rescale cfg)) with (0%Q).
  change (growth (without_rescale cfg)) with (growth cfg).
  change (hidden_dim (without_rescale cfg)) with (hidden_dim cfg).
  change (depth (without_rescale cfg)) with (depth cfg).
  change (causal (without_rescale cfg)) with (causal cfg).
  change (use_bias (without_rescale cfg)) with (use_bias cfg).
  fold (encoder_channels cfg).
  destruct ((resample cfg =? 1) || (resample cfg =? 2) || (resample cfg =? 4));
    cbn [negb bind]; [| discriminate].
  destruct (mapM (build_level init cfg) (seq 0 (levels cfg))) as [blocks |]
    eqn:Eb; cbn [bind]; [| discriminate].
  apply (mapM_inv _ (fun i => (encoder_block init cfg i, decoder_block init cfg i)))
    in Eb; [| intros a b _; apply build_level_inv].
  subst blocks. rewrite !map_map. cbn [fst snd].
  rewrite Hr. cbn [bind]. intros _.
  change (Qeq_bool 0 0) with true. cbn [negb].
  destruct (causal cfg); cbn [negb bind] in *.
  - rewrite Hl. reflexivity.
  - rewrite Hl. reflexivity.
Qed.

Lemma rescale_pass_activation (b : bool) :
  rescale_pass cfg (activation b) = activation b.
Proof.
  unfold rescale_pass, activation.
  destruct (negb (Qeq_bool (rescale cfg) 0)), b; reflexivity.
Qed.



Lemma Forall2_map_r {A : Type} (P : A -> A -> Prop) (f : A -> A) (l : list A) :
  (forall a, P a (f a)) -> Forall2 P l (map f l).
Proof.
  intros H. induction l; simpl; constructor; auto.
Qed.

Lemma layers_constructed (m : Demucs) :
  construct init cfg = Ok m ->
  layers m
  = map (rescale_pass cfg)
      (concat (map (encoder_block init cfg) (seq 0 (levels cfg)))
       ++ concat (map (decoder_block init cfg) (seq 0 (levels cfg)))).
Proof.
  intros H. destruct (construct_inv H) as (_ & _ & He & Hd & _).
  unfold layers. rewrite He, Hd, map_app, !concat_map, !map_map.
  reflexivity.
Qed.

Lemma nth_error_map_seq {A : Type} (g : nat -> A) (n i : nat) (a : A) :
  nth_error (map g (seq 0 n)) i = Some a -> (i < n)%nat /\ a = g i.
Proof.
  intros H.
  assert (Hi : (i < n)%nat).
  { assert (Hlt : (i < length (map g (seq 0 n)))%nat)
      by (apply nth_error_Some; rewrite H; discriminate).
    rewrite length_map, length_seq in Hlt. exact Hlt. }
  split; [exact Hi |].
  rewrite nth_error_map, nth_error_seq in H.
  destruct (Nat.ltb_spec i n); [| lia]. simpl in H.
  injection H as <-. reflexivity.
Qed.

Lemma to_int_ge_1 (q : Q) : (1 <= q)%Q -> 1 <= to_int q.
Proof.
  unfold Qle, to_int. simpl. intros H.
  rewrite Z.quot_div_nonneg by lia.
  apply Z.div_le_lower_bound; lia.
Qed.

Lemma pow2_ge_1 (e : Z) : 0 <= e -> (1 <= pow2 e)%Q.
Proof.
  intros He. unfold pow2. apply Qpower_1_le; [| exact He].
  unfold Qle. simpl. lia.
Qed.

Hypothesis Hwf : well_formed cfg.

Lemma channels_at_ge_1 (level : Z) : 0 <= level -> 1 <= channels_at cfg level.
Proof.
  destruct Hwf as (_ & _ & Hc & _). intros Hl.
  apply to_int_ge_1, Qmult_le_1_compat; [exact Hc | apply pow2_ge_1, Hl].
Qed.

Lemma outer_channels_ge_1 (level : Z) :
  0 <= level -> 1 <= outer_channels cfg level.
Proof.
  intros Hl. unfold outer_channels.
  destruct (Z.eqb_spec level 0); [lia |].
  apply channels_at_ge_1. lia.
Qed.

Lemma encoder_channels_eq : encoder_channels cfg = channels_at cfg (depth cfg - 1).
Proof.
  unfold encoder_channels, channels_at. f_equal. f_equal.
  unfold Qmult. simpl. rewrite Z.mul_comm, Pos.mul_comm. reflexivity.
Qed.

Lemma construct_well_formed :
  construct init cfg
  = Ok (mkDemucs cfg
          (map (fun i => map (rescale_pass cfg) (encoder_block init cfg i))
               (seq 0 (levels cfg)))
          (map (fun i => map (rescale_pass cfg) (decoder_block init cfg i))
               (seq 0 (levels cfg)))
          (mkLSTM (encoder_channels cfg) (encoder_channels cfg) 2
             (negb (causal cfg))
             (map (fun l => (nn.drop_bias (use_bias cfg) (lstm_cell init l false),
                             if negb (causal cfg)
                             then Some (nn.drop_bias (use_bias cfg)
                                          (lstm_cell init l true))
                             else None))
                  (seq 0 2)))
          (if causal cfg then Identity
           else Linear (mkLinear (2 * encoder_channels cfg) (encoder_channels cfg)
                          (linear_weight init)
                          (optional (use_bias cfg) (linear_bias init))))).
Proof.
  pose proof Hwf as (Hr & Hd & Hc & Hk & Hg).
  assert (Hch : 1 <= encoder_channels cfg)
    by (rewrite encoder_channels_eq; apply channels_at_ge_1; lia).
  unfold construct.
  replace ((resample cfg =? 1) || (resample cfg =? 2) || (resample cfg =? 4))
    with true
    by (destruct Hr as [-> | [-> | ->]]; reflexivity).
  simpl negb. cbv iota.
  rewrite (mapM_ok _ (fun i => (encoder_block init cfg i, decoder_block init cfg i))).
  2:{ intros i Hi. apply in_seq in Hi. unfold levels in Hi.
      assert (H1 : 1 <= channels_at cfg (Z.of_nat i))
        by (apply channels_at_ge_1; lia).
      assert (H2 : 1 <= outer_channels cfg (Z.of_nat i))
        by (apply outer_channels_ge_1; lia).
      assert (H3 : 1 <= channels_at cfg (depth cfg - Z.of_nat i - 1))
        by (apply channels_at_ge_1; lia).
      assert (H4 : 1 <= outer_channels cfg (depth cfg - Z.of_nat i - 1))
        by (apply outer_channels_ge_1; lia).
      apply build_level_ok; lia. }
  cbn [bind]. rewrite !map_map. cbn [fst snd].
  fold (encoder_channels cfg).
  rewrite rescale_choice, !map_map.
  unfold nn.LSTM.
  destruct (Z.leb_spec (encoder_channels cfg) 0); [lia |].
  destruct (Z.ltb_spec (encoder_channels cfg) 0); [lia |].
  cbn [Z.leb Z.compare bind].
  destruct (causal cfg); cbn [negb bind]; [reflexivity |].
  unfold nn.Linear.
  destruct (Z.ltb_spec (2 * encoder_channels cfg) 0); [lia |].
  destruct (Z.ltb_spec (encoder_channels cfg) 0); [lia |].
  reflexivity.
Qed.

End Construction.


Lemma default_well_formed : well_formed default_config.
Proof.
  unfold well_formed; simpl.
  split; [right; right; reflexivity |].
  split; [lia |]. split; [unfold Qle; simpl; lia |]. lia.
Qed.




(** C9: in the encoder the activation after the first convolution is the
    identity at level 0 when [original] is false and ReLU otherwise (so ReLU
    at every level [i >= 1]); in the decoder every block ends with ReLU but
    the last, which ends with the identity and whose transposed convolution
    has one output channel. *)
Theorem activation_placement (init : Init) (cfg : Config) (m : Demucs) :
  construct init cfg = Ok m -> activations_placed cfg m.
Proof.
  intros H. destruct (@construct_inv _ _ _ H) as (_ & _ & He & Hd & _).
  unfold activations_placed.
  rewrite He, Hd, !length_map, !length_seq.
  split; [reflexivity |]. split; [reflexivity |]. split.
  - intros i block Hi. apply nth_error_map_seq in Hi. destruct Hi as [Hi ->].
    unfold encoder_block. cbn [map]. rewrite rescale_pass_activation.
    unfold rescale_pass.
    destruct (negb (Qeq_bool (rescale cfg) 0)); cbn [rescale_module];
      do 2 eexists; repeat f_equal;
      destruct i; destruct (original cfg); reflexivity.
  - intros i block Hi. apply nth_error_map_seq in Hi. destruct Hi as [Hi ->].
    unfold levels in *.
    assert (Ea : activation (depth cfg - Z.of_nat i - 1 >? 0)
                 = if (S i =? Z.to_nat (depth cfg))%nat then Identity else ReLU).
    { unfold activation.
      destruct (Nat.eqb_spec (S i) (Z.to_nat (depth cfg)));
        destruct (Z.gtb_spec (depth cfg - Z.of_nat i - 1) 0);
        try reflexivity; lia. }
    unfold decoder_block. cbn [map]. rewrite rescale_pass_activation, Ea.
    unfold rescale_pass.
    destruct (negb (Qeq_bool (rescale cfg) 0)); cbn [rescale_module];
      do 2 eexists; (split; [reflexivity |]); intros E; cbn [out_channels];
      unfold outer_channels;
      (replace (depth cfg - Z.of_nat i - 1) with 0 by lia); reflexivity.
Qed.


(** ** Shapes through the blocks *)

Section BlockShapes.

Local Open Scope Z_scope.

Variable init : Init.
Variable cfg : Config.
Hypothesis Hgates : same_length_gates cfg.

Lemma module_shape_rescale_pass (a : Module) (s : shape) :
  module_shape (rescale_pass cfg a) s = module_shape a s.
Proof.
  unfold rescale_pass.
  destruct (negb (Qeq_bool (rescale cfg) 0)); [| reflexivity].
  destruct a; reflexivity.
Qed.

Lemma sequential_shape_rescale_pass (block : Sequential) (s : shape) :
  sequential_shape (map (rescale_pass cfg) block) s = sequential_shape block s.
Proof.
  revert s. induction block as [| a block IH]; intros s; simpl;
    [reflexivity |].
  rewrite module_shape_rescale_pass.
  destruct (module_shape a s); simpl; [apply IH | reflexivity].
Qed.

Lemma module_shape_activation (u : bool) (s : shape) :
  module_shape (activation u) s = Ok s.
Proof. destruct u; reflexivity. Qed.

(** An odd kernel padded by its half on both sides. *)
Lemma gate_kernel : 2 * (kernel_glu cfg / 2) = kernel_glu cfg - 1.
Proof.
  destruct Hgates as (_ & Hodd & _).
  pose proof (Z.div_mod (kernel_glu cfg) 2 ltac:(lia)) as E.
  rewrite Zmod_odd, Hodd in E. lia.
Qed.

Lemma glu_shape_channels (b c t : Z) :
  glu_shape 1 [b; 2 * c; t] = Ok [b; c; t].
Proof.
  unfold glu_shape. change (Z.to_nat 1) with 1%nat.
  cbn [nth_error firstn skipn app].
  rewrite Z.even_mul. cbn [Z.even orb].
  rewrite Z.mul_comm, Z.div_mul by lia. reflexivity.
Qed.

(** A gated convolution followed by its GLU keeps a [(b, c, t)] shape
    when [t >= 1]. *)
Lemma gate_shape (w : list (list (list R))) (bs : option (list R))
    (b c ch t : Z) :
  sequential_shape
    [Conv1d (mkConv c (2 * c) (kernel_glu cfg) (stride_glu cfg)
               (kernel_glu cfg / 2) w bs); GLU 1] [b; ch; t]
  = if (ch =? c) && (1 <=? t) then Ok [b; c; t] else Raise RuntimeError.
Proof.
  destruct Hgates as (Hsg & _ & _).
  cbn [sequential_shape module_shape]. unfold conv1d_shape.
  cbn [in_channels out_channels kernel_size stride padding].
  rewrite gate_kernel, Hsg.
  destruct (Z.eqb_spec ch c); cbn [negb andb bind]; [| reflexivity].
  change (1 <=? 0) with false. cbv iota.
  destruct (Z.ltb_spec (t + (kernel_glu cfg - 1)) (kernel_glu cfg));
    destruct (Z.leb_spec 1 t); try lia; cbn [bind]; [reflexivity |].
  rewrite Z.div_1_r.
  replace (t + (kernel_glu cfg - 1) - kernel_glu cfg + 1) with t by ring.
  rewrite glu_shape_channels. reflexivity.
Qed.

Lemma sequential_shape_app (b1 b2 : Sequential) (s : shape) :
  sequential_shape (b1 ++ b2) s
  = (s' <- sequential_shape b1 s ;; sequential_shape b2 s').
Proof.
  revert s. induction b1 as [| a b1 IH]; intros s; simpl; [reflexivity |].
  destruct (module_shape a s); simpl; [apply IH | reflexivity].
Qed.

(** A strided convolution followed by an activation. *)
Lemma strided_shape (w : list (list (list R))) (bs : option (list R))
    (u : bool) (cin cout b ch t : Z) :
  sequential_shape
    [Conv1d (mkConv cin cout (kernel_conv cfg) (stride_conv cfg) 0 w bs);
     activation u] [b; ch; t]
  = if (ch =? cin) && (kernel_conv cfg <=? t)
    then Ok [b; cout; (t - kernel_conv cfg) / stride_conv cfg + 1]
    else Raise RuntimeError.
Proof.
  destruct Hgates as (_ & _ & Hs).
  cbn [sequential_shape module_shape]. unfold conv1d_shape.
  cbn [in_channels out_channels kernel_size stride padding].
  destruct (Z.eqb_spec ch cin); cbn [negb andb bind]; [| reflexivity].
  destruct (Z.leb_spec (stride_conv cfg) 0); [lia |].
  rewrite Z.mul_0_r, Z.add_0_r.
  destruct (Z.ltb_spec t (kernel_conv cfg));
    destruct (Z.leb_spec (kernel_conv cfg) t); try lia; cbn [bind];
    [reflexivity |].
  rewrite module_shape_activation. reflexivity.
Qed.

(** The shape equation of an encoder block on a [(b, ch, t)] input. *)
Lemma encoder_block_shape (i : nat) (b ch t : Z) :
  sequential_shape (encoder_block init cfg i) [b; ch; t]
  = if (ch =? outer_channels cfg (Z.of_nat i)) && (kernel_conv cfg <=? t)
    then Ok [b; channels_at cfg (Z.of_nat i);
             (t - kernel_conv cfg) / stride_conv cfg + 1]
    else Raise RuntimeError.
Proof.
  destruct Hgates as (_ & _ & Hs).
  unfold encoder_block.
  match goal with
  | |- sequential_shape [?c1; ?a; ?c2; ?g] _ = _ =>
      change [c1; a; c2; g] with ([c1; a] ++ [c2; g])
  end.
  rewrite sequential_shape_app, strided_shape.
  destruct (Z.eqb_spec ch (outer_channels cfg (Z.of_nat i)));
    cbn [andb bind]; [| reflexivity].
  destruct (Z.leb_spec (kernel_conv cfg) t); cbn [bind]; [| reflexivity].
  rewrite gate_shape, Z.eqb_refl. cbn [andb].
  assert (0 <= (t - kernel_conv cfg) / stride_conv cfg)
    by (apply Z.div_pos; lia).
  destruct (Z.leb_spec 1 ((t - kernel_conv cfg) / stride_conv cfg + 1));
    [reflexivity | lia].
Qed.

(** The shape equation of a decoder block on a [(b, ch, t)] input. *)
Lemma decoder_block_shape (i : nat) (b ch t : Z) :
  sequential_shape (decoder_block init cfg i) [b; ch; t]
  = if (ch =? channels_at cfg (depth cfg - Z.of_nat i - 1)) && (1 <=? t)
    then Ok [b; outer_channels cfg (depth cfg - Z.of_nat i - 1);
             (t - 1) * stride_conv cfg + kernel_conv cfg]
    else Raise RuntimeError.
Proof.
  destruct Hgates as (_ & _ & Hs).
  unfold decoder_block.
  match goal with
  | |- sequential_shape [?c1; ?g; ?c2; ?a] _ = _ =>
      change [c1; g; c2; a] with ([c1; g] ++ [c2; a])
  end.
  rewrite sequential_shape_app, gate_shape.
  destruct ((ch =? channels_at cfg (depth cfg - Z.of_nat i - 1)) && (1 <=? t));
    cbn [bind]; [| reflexivity].
  cbn [sequential_shape module_shape]. unfold conv_transpose1d_shape.
  cbn [in_channels out_channels kernel_size stride padding].
  rewrite Z.eqb_refl. cbn [negb].
  destruct (Z.leb_spec (stride_conv cfg) 0); [lia |]. cbn [bind].
  rewrite module_shape_activation. cbn [bind].
  rewrite Z.mul_0_r, Z.sub_0_r. reflexivity.
Qed.

End BlockShapes.

(** ** The skip stack covers the decoder inputs *)

Section SkipsCover.

Local Open Scope Z_scope.

Variable init : Init.
Variable cfg : Config.
Variable m : Demucs.
Hypothesis Hgates : same_length_gates cfg.
Hypothesis Hm : construct init cfg = Ok m.

Let s := stride_conv cfg.
Let k := kernel_conv cfg.






Lemma resample_up_time (b c t : Z) :
  exists t' : Z,
    resample_shape upsample2_shape (resample cfg) [b; c; t] = Ok [b; c; t'].
Proof.
  unfold resample_shape, upsample2_shape, set_last, last_dim.
  destruct (resample cfg =? 2); [cbn; eauto |].
  destruct (resample cfg =? 4); cbn; eauto.
Qed.

Lemma broadcast_std (b t : Z) : broadcast [b; 1; t] [b; 1; 1] = Ok [b; 1; t].
Proof.
  unfold broadcast. cbn [rev app broadcast_rev bind].
  rewrite !Z.eqb_refl. cbn [bind].
  destruct (Z.eqb_spec t 1) as [-> |]; reflexivity.
Qed.

Lemma forward_prefix_batched (B C L : Z) :
  forward_prefix m [B; C; L] = forward_encode m [B; 1; L].
Proof. reflexivity. Qed.

Lemma forward_prefix_unbatched (B L : Z) :
  forward_prefix m [B; L] = forward_encode m [B; 1; L].
Proof. reflexivity. Qed.



Lemma broadcast_rev_length (a : list Z) :
  forall (b r : list Z),
    broadcast_rev a b = Ok r -> length r = Nat.max (length a) (length b).
Proof.
  induction a as [| x a IH]; intros b r H.
  - simpl in H. injection H as <-. reflexivity.
  - destruct b as [| y b]; [simpl in H; injection H as <-; reflexivity |].
    cbn [broadcast_rev] in H.
    destruct (broadcast_rev a b) as [r' |] eqn:E; cbn [bind] in H;
      [| discriminate].
    apply IH in E.
    destruct (x =? y), (x =? 1), (y =? 1); try discriminate H;
      injection H as <-; cbn [length Nat.max]; rewrite E; reflexivity.
Qed.

Lemma broadcast_length (a b r : shape) :
  broadcast a b = Ok r -> length r = Nat.max (length a) (length b).
Proof.
  unfold broadcast. intros H.
  destruct (broadcast_rev (rev a) (rev b)) as [r' |] eqn:E; cbn [bind] in H;
    [| discriminate].
  injection H as <-. apply broadcast_rev_length in E.
  rewrite !length_rev in *. exact E.
Qed.

Lemma set_last_length (x : shape) (n0 : Z) :
  x <> [] -> length (set_last x n0) = length x.
Proof.
  intros Hx. destruct (exists_last Hx) as (l & a & ->).
  unfold set_last. rewrite removelast_last, !length_app. reflexivity.
Qed.

(** An input of more than three axes does not pass the first convolution
    (or, without encoder blocks, the bottleneck). *)
Lemma forward_encode_high_rank (x : shape)
    (out : shape * list shape * Z * shape) :
  (4 <= length x)%nat -> forward_encode m x <> Ok out.
Proof.
  destruct (@construct_inv _ _ _ Hm) as (_ & Hc & He & _).
  intros Hlen H. unfold forward_encode in H. rewrite Hc in H. cbv zeta in H.
  assert (Hx : x <> []) by (intros ->; simpl in Hlen; lia).
  match type of H with
  | bind ?r _ = _ => destruct r as [x1 |] eqn:E1; cbn [bind] in H;
                     [| discriminate]
  end.
  assert (L1 : length x1 = length x).
  { destruct (normalize cfg).
    - apply broadcast_length in E1.
      rewrite set_last_length in E1 by exact Hx. lia.
    - injection E1 as <-. reflexivity. }
  destruct (valid_length cfg (last_dim x1)) as [v |]; cbn [bind] in H;
    [| discriminate].
  assert (Hx1 : x1 <> []) by (intros ->; simpl in L1; lia).
  unfold pad_last in H.
  destruct (last_dim x1 + (v - last_dim x1) <? 0); cbn [bind] in H;
    [discriminate |].
  set (x2 := set_last x1 (last_dim x1 + (v - last_dim x1))) in H.
  assert (L2 : length x2 = length x)
    by (unfold x2; rewrite set_last_length by exact Hx1; exact L1).
  assert (Hx2 : x2 <> []) by (intros E; rewrite E in L2; simpl in L2; lia).
  match type of H with
  | bind ?r _ = _ => destruct r as [x3 |] eqn:E3; cbn [bind] in H;
                     [| discriminate]
  end.
  assert (L3 : length x3 = length x).
  { unfold resample_shape, upsample2_shape in E3.
    assert (Hs : forall y, y <> [] -> set_last y (2 * last_dim y) <> [])
      by (intros y Hy E; apply (f_equal (@length Z)) in E;
          rewrite set_last_length in E by exact Hy;
          destruct y; [contradiction | discriminate E]).
    destruct (resample cfg =? 2); [| destruct (resample cfg =? 4)];
      cbn [bind] in E3; injection E3 as <-;
      rewrite ?set_last_length; auto. }
  rewrite He in H.
  destruct x3 as [| a [| b [| c [| d rest]]]]; simpl in L3; try lia.
  destruct (levels cfg) as [| n0]; cbn [seq map encode_shape] in H.
  - cbn [bind fst] in H. unfold bottleneck_shape in H.
    cbn [permute_201 bind] in H. discriminate H.
  - rewrite sequential_shape_rescale_pass in H. unfold encoder_block in H.
    cbn [sequential_shape module_shape conv1d_shape bind] in H.
    discriminate H.
Qed.


End SkipsCover.



(** ** The forward pass returns the input length *)

Section ForwardLength.

Local Open Scope Z_scope.

Variable init : Init.
Variable cfg : Config.
Variable m : Demucs.
Hypothesis Haligned : aligned cfg.
Hypothesis Hwf : well_formed cfg.
Hypothesis Hm : construct init cfg = Ok m.

Variables B L : Z.

Let s := stride_conv cfg.
Let k := kernel_conv cfg.
Let r := resample cfg.
Let n := levels cfg.
Let dec := decoder_length cfg.
Let bottom := bottleneck_length cfg L.
Let top := decoded_length cfg L.
Let valid := ceil_quot top r.

(** The shape at the boundary below encoder level [j - 1] and above
    level [j]: boundary 0 is the resampled signal, boundary [depth] the
    bottleneck. *)
Let state (j : nat) : shape :=
  [B; outer_channels cfg (Z.of_nat j); Nat.iter (n - j) dec bottom].

Lemma gates_of_aligned : same_length_gates cfg.
Proof.
  destruct Haligned as (Hkg & Hsg & Hs & _).
  unfold same_length_gates. rewrite Hkg. auto.
Qed.

Lemma levels_depth : Z.of_nat n = depth cfg.
Proof.
  destruct Hwf as (_ & Hd & _). unfold n, levels. lia.
Qed.

Lemma bottom_ge_1 : 1 <= bottom.
Proof.
  pose proof levels_depth as E. destruct Hwf as (_ & Hd & _).
  unfold bottom, bottleneck_length. fold n.
  destruct n as [| j]; [lia |]. simpl. apply conv_out_ge_1.
Qed.

Lemma state_time_ge_1 (j : nat) : 1 <= Nat.iter j dec bottom.
Proof. apply iter_dec_ge_1; [exact Haligned | exact bottom_ge_1]. Qed.

Lemma outer_channels_succ (j : nat) :
  outer_channels cfg (Z.of_nat (S j)) = channels_at cfg (Z.of_nat j).
Proof.
  unfold outer_channels.
  destruct (Z.eqb_spec (Z.of_nat (S j)) 0); [lia |].
  f_equal. lia.
Qed.

Lemma encode_step (a : nat) :
  (a < n)%nat ->
  sequential_shape (map (rescale_pass cfg) (encoder_block init cfg a)) (state a)
  = Ok (state (S a)).
Proof.
  destruct Haligned as (_ & _ & Hs & _). fold s in Hs.
  intros Ha. unfold state.
  rewrite sequential_shape_rescale_pass, encoder_block_shape
    by exact gates_of_aligned.
  replace (n - a)%nat with (S (n - S a)) by lia.
  pose proof (state_time_ge_1 (n - S a)) as Hx.
  change (Nat.iter (S (n - S a)) dec bottom)
    with ((Nat.iter (n - S a) dec bottom - 1) * s + k).
  set (x := Nat.iter (n - S a) dec bottom) in *. fold s k.
  rewrite Z.eqb_refl. cbn [andb].
  destruct (Z.leb_spec k ((x - 1) * s + k)); [| nia].
  replace ((x - 1) * s + k - k) with ((x - 1) * s) by ring.
  rewrite Z.div_mul by lia.
  rewrite outer_channels_succ. unfold state.
  replace (x - 1 + 1) with x by ring. reflexivity.
Qed.

Lemma encode_states (j : nat) :
  forall (a : nat) (skips : list shape),
    (a + j = n)%nat ->
    encode_shape
      (map (fun i => map (rescale_pass cfg) (encoder_block init cfg i))
           (seq a j))
      (state a) skips
    = Ok (state n, map state (rev (seq (S a) j)) ++ skips).
Proof.
  induction j as [| j IH]; intros a skips Ha.
  - simpl. replace a with n by lia. reflexivity.
  - cbn [seq map encode_shape]. rewrite encode_step by lia. cbn [bind].
    rewrite IH by lia. do 2 f_equal.
    cbn [seq rev]. rewrite map_app, <- app_assoc. reflexivity.
Qed.

Lemma model_eq :
  encoder m = map (fun i => map (rescale_pass cfg) (encoder_block init cfg i))
                  (seq 0 n)
  /\ decoder m = map (fun i => map (rescale_pass cfg) (decoder_block init cfg i))
                     (seq 0 n)
  /\ config m = cfg
  /\ input_size (rnn m) = encoder_channels cfg
  /\ hidden_size (rnn m) = encoder_channels cfg
  /\ bidirectional (rnn m) = negb (causal cfg)
  /\ (causal cfg = true -> linear m = Identity)
  /\ (causal cfg = false ->
      exists l, linear m = Linear l
                /\ in_features l = 2 * encoder_channels cfg
                /\ out_features l = encoder_channels cfg).
Proof.
  pose proof (construct_well_formed init Hwf) as E.
  rewrite Hm in E. injection E as E. rewrite E. cbn.
  repeat split; try reflexivity.
  - intros ->. reflexivity.
  - intros ->. eexists. repeat split.
Qed.

Lemma outer_channels_bottom : outer_channels cfg (Z.of_nat n) = encoder_channels cfg.
Proof.
  pose proof levels_depth as E. destruct Hwf as (_ & Hd & _).
  rewrite encoder_channels_eq. unfold outer_channels.
  destruct (Z.eqb_spec (Z.of_nat n) 0); [lia |]. rewrite E. reflexivity.
Qed.

Lemma bottleneck_state : bottleneck_shape m (state n) = Ok (state n).
Proof.
  destruct model_eq as (_ & _ & _ & Hi & Hh & Hb & Hl1 & Hl2).
  unfold bottleneck_shape, state. cbn [permute_201 bind]. unfold lstm_shape.
  rewrite Hi, Hh, Hb, outer_channels_bottom, Z.eqb_refl. cbn [bind].
  destruct (causal cfg) eqn:Ec; cbn [negb].
  - rewrite Hl1 by reflexivity. cbn [module_shape bind permute_120].
    rewrite Z.mul_1_r. reflexivity.
  - destruct (Hl2 eq_refl) as (l & -> & Hin & Hout).
    cbn [module_shape]. unfold linear_shape, last_dim, set_last.
    cbn [last removelast app]. rewrite Hin, Hout, Z.mul_comm, Z.eqb_refl.
    reflexivity.
Qed.

Lemma broadcast_refl (b c t : Z) : broadcast [b; c; t] [b; c; t] = Ok [b; c; t].
Proof.
  unfold broadcast. cbn [rev app broadcast_rev bind].
  rewrite !Z.eqb_refl. reflexivity.
Qed.

Lemma decode_step (j : nat) :
  (j < n)%nat ->
  (x <- broadcast (state (S j)) (slice_last (state (S j)) (last_dim (state (S j)))) ;;
   sequential_shape
     (map (rescale_pass cfg) (decoder_block init cfg (n - S j))) x)
  = Ok (state j).
Proof.
  destruct Haligned as (_ & _ & Hs & _). fold s in Hs.
  pose proof levels_depth as En.
  intros Hj. unfold state, slice_last, last_dim, set_last.
  cbn [last removelast app].
  rewrite Z.min_id, broadcast_refl. cbn [bind].
  rewrite sequential_shape_rescale_pass, decoder_block_shape
    by exact gates_of_aligned.
  replace (depth cfg - Z.of_nat (n - S j) - 1) with (Z.of_nat j) by lia.
  rewrite outer_channels_succ, Z.eqb_refl. cbn [andb].
  pose proof (state_time_ge_1 (n - S j)) as Hx.
  destruct (Z.leb_spec 1 (Nat.iter (n - S j) dec bottom)); [| lia].
  replace (n - j)%nat with (S (n - S j)) by lia. reflexivity.
Qed.

Lemma decode_states (j : nat) :
  (j <= n)%nat ->
  decode_shape
    (map (fun i => map (rescale_pass cfg) (decoder_block init cfg i))
         (seq (n - j) j))
    (state j) (map state (rev (seq 1 j)))
  = (map (fun i => (last_dim (state i), last_dim (state i))) (rev (seq 1 j)),
     Ok (state 0)).
Proof.
  induction j as [| j IH]; intros Hj; [reflexivity |].
  rewrite (seq_S j 1), rev_app_distr. cbn [rev app map Nat.add].
  replace (seq (n - S j) (S j)) with ((n - S j)%nat :: seq (n - j) j)
    by (cbn [seq]; do 2 f_equal; lia).
  cbn [map decode_shape]. rewrite decode_step by lia.
  rewrite IH by lia. reflexivity.
Qed.

Lemma resample_exact : valid * r = top.
Proof. apply decoded_exact, Haligned. Qed.

Lemma upsampled :
  resample_shape upsample2_shape r [B; 1; valid] = Ok [B; 1; top].
Proof.
  pose proof resample_exact as E. destruct Hwf as (Hr & _). fold r in Hr.
  unfold resample_shape, upsample2_shape, last_dim, set_last.
  destruct Hr as [Hr | [Hr | Hr]]; rewrite Hr in *;
    cbn [Z.eqb Pos.eqb last removelast app bind].
  - replace top with valid by lia. reflexivity.
  - replace top with (2 * valid) by lia. reflexivity.
  - replace top with (2 * (2 * valid)) by lia. reflexivity.
Qed.

Lemma downsampled :
  resample_shape downsample2_shape r [B; 1; top] = Ok [B; 1; valid].
Proof.
  pose proof resample_exact as E. destruct Hwf as (Hr & _). fold r in Hr.
  unfold resample_shape.
  destruct Hr as [Hr | [Hr | Hr]]; rewrite Hr in *; cbn [Z.eqb Pos.eqb].
  - replace top with valid by lia. reflexivity.
  - unfold downsample2_shape, last_dim, set_last. cbn [last removelast app].
    rewrite <- E, Z.even_mul, Z.div_mul by lia. rewrite orb_true_r.
    reflexivity.
  - unfold downsample2_shape, last_dim, set_last. cbn [last removelast app bind].
    replace top with (valid * 2 * 2) by lia.
    rewrite Z.even_mul, orb_true_r. cbn [bind last removelast app].
    rewrite Z.div_mul by lia. rewrite Z.even_mul, orb_true_r.
    rewrite Z.div_mul by lia. reflexivity.
Qed.

Hypothesis HL : 0 < L.

Lemma forward_encode_states :
  forward_encode m [B; 1; L]
  = Ok (state n, map state (rev (seq 1 n)), L,
        if normalize cfg then [B; 1; 1] else []).
Proof.
  destruct model_eq as (He & _ & Hc & _).
  assert (Hge : L <= valid) by (apply valid_length_ge, Haligned).
  unfold forward_encode. rewrite Hc. cbv zeta.
  assert (Es : state 0 = [B; 1; top]).
  { unfold state, top, decoded_length. rewrite Nat.sub_0_r. reflexivity. }
  destruct (normalize cfg);
    [unfold set_last at 1; cbn [removelast app]; rewrite broadcast_std |];
    cbn [bind]; unfold last_dim at 1 2; cbn [last];
    rewrite (valid_length_aligned Haligned); cbn [bind];
    fold top r valid;
    unfold pad_last, last_dim at 1 2, set_last at 1; cbn [last removelast app];
    (destruct (Z.ltb_spec (L + (valid - L)) 0); [lia |]); cbn [bind];
    replace (L + (valid - L)) with valid by ring;
    rewrite upsampled; cbn [bind];
    rewrite He, <- Es, (encode_states n 0 [] eq_refl), app_nil_r; cbn [bind fst snd];
    rewrite bottleneck_state; reflexivity.
Qed.

Lemma broadcast_scale (std : shape) :
  std = [B; 1; 1] \/ std = [] -> broadcast std [B; 1; L] = Ok [B; 1; L].
Proof.
  intros [-> | ->]; unfold broadcast; cbn [rev app broadcast_rev bind].
  - rewrite !Z.eqb_refl. cbn [bind].
    destruct (Z.eqb_spec 1 L) as [<- |]; reflexivity.
  - reflexivity.
Qed.

Lemma forward_encoded_length (x : shape) :
  forward_prefix m x = forward_encode m [B; 1; L] ->
  forward_shape m x = Ok [B; 1; L].
Proof.
  destruct model_eq as (_ & Hd & Hc & _).
  assert (Hge : L <= valid) by (apply valid_length_ge, Haligned).
  intros Hx. unfold forward_shape, forward_log.
  rewrite Hx, forward_encode_states, Hd.
  pose proof (decode_states (Nat.le_refl n)) as E.
  rewrite Nat.sub_diag in E. rewrite E. cbn [snd bind].
  replace (state 0) with [B; 1; top]
    by (unfold state, top, decoded_length; rewrite Nat.sub_0_r; reflexivity).
  rewrite Hc. fold r. rewrite downsampled. cbn [bind].
  unfold slice_last, last_dim, set_last. cbn [last removelast app].
  rewrite Z.min_r by lia.
  apply broadcast_scale. destruct (normalize cfg); auto.
Qed.

End ForwardLength.

Lemma mono_input_keeps_length (init : Init) (cfg : Config) (m : Demucs)
    (B L : Z) :
  aligned cfg -> well_formed cfg ->
  construct init cfg = Ok m ->
  (0 < L)%Z ->
  forward_shape m [B; 1; L]%Z = Ok [B; 1; L]%Z.
Proof.
  intros Ha Hw Hm HL.
  apply (@forward_encoded_length init cfg m Ha Hw Hm B L HL). reflexivity.
Qed.



(** ** The recurrent bottleneck looks at the past only *)

Section Causality.

Lemma lstm_scan_firstn (h : nat) (p : LSTMCell) (t : nat) :
  forall (state : list R * list R) (xs : list (list R)),
    firstn t (lstm_scan h p state xs) = lstm_scan h p state (firstn t xs).
Proof.
  induction t as [| t IH]; intros state xs; [reflexivity |].
  destruct xs as [| x xs]; [reflexivity |].
  cbn [lstm_scan firstn]. rewrite IH. reflexivity.
Qed.

Lemma lstm_layer_firstn (h : nat) (p : LSTMCell) (t : nat) (xs : list (list R)) :
  firstn t (lstm_layer h (p, None) xs) = lstm_layer h (p, None) (firstn t xs).
Proof. unfold lstm_layer. cbn [fst snd]. apply lstm_scan_firstn. Qed.

(** A stack of unidirectional layers commutes with taking a prefix. *)
Lemma lstm_layers_firstn (h : nat) (t : nat) (layers : list (LSTMCell * option LSTMCell)) :
  Forall (fun dirs => snd dirs = None) layers ->
  forall xs : list (list R),
    firstn t (fold_left (fun xs dirs => lstm_layer h dirs xs) layers xs)
    = fold_left (fun xs dirs => lstm_layer h dirs xs) layers (firstn t xs).
Proof.
  induction 1 as [| [p o] layers Ho _ IH]; intros xs; [reflexivity |].
  cbn [fold_left]. cbn [snd] in Ho. subst o.
  rewrite IH, lstm_layer_firstn. reflexivity.
Qed.

Lemma column_nth (c j : nat) (x : signal) :
  nth c (column j x) 0%R = nth j (nth c x []) 0%R.
Proof.
  unfold column.
  destruct (Nat.ltb_spec c (length x)) as [Hc | Hc].
  - rewrite nth_indep with (d' := (fun row : list R => nth j row 0%R) [])
      by (rewrite length_map; exact Hc).
    apply (map_nth (fun row : list R => nth j row 0%R)).
  - rewrite (nth_overflow x [] Hc).
    rewrite nth_overflow by (rewrite length_map; exact Hc).
    destruct j; reflexivity.
Qed.

Lemma column_ext (j : nat) (x y : signal) :
  length x = length y ->
  (forall c, nth j (nth c x []) 0%R = nth j (nth c y []) 0%R) ->
  column j x = column j y.
Proof.
  intros Hlen H. apply nth_ext with (d := 0%R) (d' := 0%R).
  - unfold column. rewrite !length_map. exact Hlen.
  - intros c _. rewrite !column_nth. apply H.
Qed.

Lemma firstn_seq (t : nat) :
  forall a len : nat, firstn t (seq a len) = seq a (Nat.min t len).
Proof.
  induction t as [| t IH]; intros a len; [reflexivity |].
  destruct len as [| len]; [reflexivity |].
  cbn [seq firstn Nat.min]. rewrite IH. reflexivity.
Qed.

Lemma transpose_firstn (t : nat) (x y : signal) :
  same_shape x y -> same_before t x y ->
  firstn t (transpose x) = firstn t (transpose y).
Proof.
  intros [Hlen Htime] H. unfold transpose.
  rewrite <- Htime, !firstn_map. apply map_ext_in.
  intros j Hj. apply column_ext; [exact Hlen |].
  intros c. apply H.
  rewrite firstn_seq in Hj. apply in_seq in Hj. lia.
Qed.

Lemma transpose_nth (c j : nat) (o : list (list R)) :
  nth j (nth c (transpose o) []) 0%R
  = if (c <? time_length o)%nat then nth c (nth j o []) 0%R else 0%R.
Proof.
  unfold transpose.
  destruct (Nat.ltb_spec c (time_length o)) as [Hc | Hc].
  - assert (E : nth c (map (fun j => column j o) (seq 0 (time_length o))) []
                = column c o).
    { rewrite (nth_indep _ [] ((fun j => column j o) 0%nat))
        by (rewrite length_map, length_seq; exact Hc).
      rewrite (map_nth (fun j => column j o)), seq_nth by exact Hc.
      reflexivity. }
    rewrite E. apply column_nth.
  - rewrite (nth_overflow (map (fun j => column j o) (seq 0 (time_length o))) [])
      by (rewrite length_map, length_seq; exact Hc).
    destruct j; reflexivity.
Qed.

Lemma firstn_same_before (t : nat) (o o' : list (list R)) :
  firstn t o = firstn t o' -> same_before t (transpose o) (transpose o').
Proof.
  intros H c j Hj. rewrite !transpose_nth.
  assert (Eh : hd [] o = hd [] o').
  { destruct t as [| t]; [lia |].
    destruct o, o'; cbn [firstn] in H; try discriminate H;
      [reflexivity | injection H as -> _; reflexivity]. }
  assert (Ej : nth j o [] = nth j o' []).
  { pose proof (nth_firstn t o j []) as E.
    pose proof (nth_firstn t o' j []) as E'.
    destruct (Nat.ltb_spec j t); [| lia].
    rewrite <- E, <- E', H. reflexivity. }
  unfold time_length. rewrite Eh, Ej. reflexivity.
Qed.

End Causality.

(** C2 (as amended): with [causal = true] the recurrent bottleneck does not
    anticipate: if two encoded signals of one shape agree before time step
    [t], so do the outputs of [bottleneck].  (The whole of [forward] looks
    ahead through its convolution windows, the normalisation and the
    resampling.) *)
Theorem bottleneck_non_anticipating (init : Init) (cfg : Config) (m : Demucs) :
  construct init cfg = Ok m ->
  causal cfg = true ->
  non_anticipating (fun xs => Ok (bottleneck m xs)).
Proof.
  intros Hm Hc.
  destruct (@construct_inv _ _ _ Hm) as (_ & _ & _ & _ & Hr & Hl).
  rewrite Hc in Hr, Hl. cbn [negb] in Hr.
  assert (Hcells : Forall (fun dirs => snd dirs = None) (cells (rnn m))).
  { unfold nn.LSTM in Hr.
    repeat match type of Hr with
           | (if ?b then Raise _ else _) = _ => destruct b; [discriminate Hr |]
           end.
    injection Hr as <-. cbn [cells]. repeat constructor. }
  intros t xs ys out_x out_y H Ex Ey.
  injection Ex as <-. injection Ey as <-. unfold bottleneck.
  induction H as [| x y xs ys [Hs Hb] _ IH]; cbn [map]; constructor;
    [| exact IH].
  unfold bottleneck_example. rewrite Hl.
  apply firstn_same_before. unfold lstm_apply.
  rewrite !lstm_layers_firstn by exact Hcells.
  rewrite (transpose_firstn Hs Hb). reflexivity.
Qed.

(** ** The small model, evaluated *)

Local Open Scope R_scope.

Lemma sigmoid_0 : sigmoid 0 = 1 / 2.
Proof. unfold sigmoid. rewrite Ropp_0, exp_0. lra. Qed.

Lemma tanh_0 : tanh 0 = 0.
Proof. unfold tanh. rewrite sinh_0. lra. Qed.

Ltac run :=
  cbv -[Rplus Rmult Rminus Ropp Rdiv Rinv IZR INR exp tanh sqrt Rmax
        sigmoid Rle_dec].

Ltac list_eq :=
  repeat match goal with
         | |- @eq R _ _ => lra
         | |- cons _ _ = cons _ _ => f_equal
         | |- Ok _ = Ok _ => f_equal
         | |- pair _ _ = pair _ _ => f_equal
         end.

Ltac pure a :=
  lazymatch a with
  | context [sigmoid _] => fail
  | context [tanh _] => fail
  | context [Rmax _ _] => fail
  | _ => idtac
  end.

(** Evaluate the activations from the inside out. *)
Ltac settle :=
  repeat first
    [ rewrite sigmoid_0
    | rewrite tanh_0
    | match goal with
      | |- context [sigmoid ?a] => pure a; replace a with 0 by lra
      | |- context [tanh ?a] => pure a; replace a with 0 by lra
      | |- context [Rmax 0 ?a] => pure a; rewrite (Rmax_right 0 a) by lra
      end ].

Section ToyModel.

Local Open Scope R_scope.

Lemma toy_constructed (b : bool) :
  construct toy_init (toy_config b) = Ok (toy_model b).
Proof. reflexivity. Qed.

Variable b : bool.

Lemma toy_encode (x0 x1 x2 x3 x4 x5 x6 x7 : R) :
  0 <= x0 + x1 + x2 + x3 + x4 + x5 + x6 + x7 ->
  encode_loop (encoder (toy_model b)) [[x0; x1; x2; x3; x4; x5; x6; x7]] []
  = ([[(x0 + x1 + x2 + x3 + x4 + x5 + x6 + x7) / 2]],
     [[[(x0 + x1 + x2 + x3 + x4 + x5 + x6 + x7) / 2]]]).
Proof. intros H. run. settle. list_eq. Qed.

Lemma toy_bottleneck (y : R) : bottleneck_example (toy_model b) [[y]] = [[0]].
Proof. run. settle. list_eq. Qed.

Lemma toy_decode (y : R) :
  decode_loop (decoder (toy_model b)) [[0]] [[[y]]]
  = Ok [[y / 2; y / 2; y / 2; y / 2; y / 2; y / 2; y / 2; y / 2]].
Proof. run. settle. list_eq. Qed.

(** On eight samples the network returns a quarter of their sum at every
    time step. *)
Lemma toy_network (rs : Resampler) (x0 x1 x2 x3 x4 x5 x6 x7 : R) :
  0 <= x0 + x1 + x2 + x3 + x4 + x5 + x6 + x7 ->
  network rs (toy_model b) [[x0; x1; x2; x3; x4; x5; x6; x7]]
  = Ok [repeat ((x0 + x1 + x2 + x3 + x4 + x5 + x6 + x7) / 4) 8].
Proof.
  intros H. unfold network.
  change (time_length [[x0; x1; x2; x3; x4; x5; x6; x7]]) with 8%nat.
  change (valid_length (config (toy_model b)) (Z.of_nat 8)) with (Ok 8%Z).
  cbn [bind].
  change (map (pad_row (8 - Z.of_nat 8)) [[x0; x1; x2; x3; x4; x5; x6; x7]])
    with [[x0; x1; x2; x3; x4; x5; x6; x7]].
  change (resample (config (toy_model b))) with 1%Z.
  change (resample_rows (upsample2 rs) 1 [[x0; x1; x2; x3; x4; x5; x6; x7]])
    with [[x0; x1; x2; x3; x4; x5; x6; x7]].
  rewrite (toy_encode H), toy_bottleneck, toy_decode.
  cbn [bind resample_rows Z.eqb Pos.eqb map firstn repeat]. list_eq.
Qed.


Lemma map_nth_seq (row : list R) :
  map (fun j => nth j row 0) (seq 0 (length row)) = row.
Proof.
  induction row as [| v row IH]; [reflexivity |].
  cbn [length seq map nth]. rewrite <- seq_shift, map_map.
  cbn [nth]. rewrite IH. reflexivity.
Qed.

Lemma mono_single (row : list R) : mono [row] = [row].
Proof.
  unfold mono, time_length, column, mean. cbn [hd map length Rsum fold_right INR].
  f_equal. rewrite <- (map_nth_seq row) at 2.
  apply map_ext. intros j. field.
Qed.


End ToyModel.

Section ToyForward.

Local Open Scope R_scope.

(** Without normalisation, every output sample is a quarter of the sum
    of the eight input samples. *)
Lemma toy_forward (rs : Resampler) (x0 x1 x2 x3 x4 x5 x6 x7 : R) :
  0 <= x0 + x1 + x2 + x3 + x4 + x5 + x6 + x7 ->
  forward rs (toy_model false) [[[x0; x1; x2; x3; x4; x5; x6; x7]]]
  = Ok [[repeat ((x0 + x1 + x2 + x3 + x4 + x5 + x6 + x7) / 4) 8]].
Proof.
  intros H. unfold forward.
  change (shape_of [[[x0; x1; x2; x3; x4; x5; x6; x7]]])
    with (Some [1; 1; 8]%Z).
  cbv beta iota.
  assert (Es : forward_shape (toy_model false) [1; 1; 8]%Z = Ok [1; 1; 8]%Z).
  { pose proof (toy_constructed false) as Hc.
    apply (@mono_input_keeps_length toy_init (toy_config false) _ 1 8);
      [unfold aligned; cbn; lia | | exact Hc | lia].
    unfold well_formed; cbn.
    split; [left; reflexivity |]. split; [lia |].
    split; [unfold Qle; cbn; lia | lia]. }
  rewrite Es. cbn [bind mapM]. unfold forward_example.
  rewrite mono_single.
  change (normalize (config (toy_model false))) with false. cbv iota.
  rewrite (toy_network false rs H). cbn [bind repeat map]. list_eq.
Qed.


End ToyForward.

(** C2 (as stated) fails: the small model is constructed with
    [causal = true]; two inputs of eight samples that differ only in the
    last one (time 7) give outputs that differ at time 0. *)
Lemma forward_anticipates :
  construct toy_init (toy_config false) = Ok (toy_model false)
  /\ causal (toy_config false) = true
  /\ forall rs : Resampler, ~ non_anticipating (forward rs (toy_model false)).
Proof.
  split; [reflexivity |]. split; [reflexivity |].
  intros rs H.
  pose proof (@toy_forward rs 0 0 0 0 0 0 0 0 ltac:(lra)) as E0.
  pose proof (@toy_forward rs 0 0 0 0 0 0 0 1 ltac:(lra)) as E1.
  assert (Hin : Forall2 (fun x y => same_shape x y /\ same_before 7 x y)
                  [[[0; 0; 0; 0; 0; 0; 0; 0]]] [[[0; 0; 0; 0; 0; 0; 0; 1]]]%R).
  { constructor; [| constructor]. split; [split; reflexivity |].
    intros c j Hj.
    destruct c as [| c]; [| destruct c; destruct j; reflexivity].
    do 7 (destruct j as [| j]; [reflexivity |]). lia. }
  pose proof (H 7%nat _ _ _ _ Hin E0 E1) as Hout.
  inversion Hout as [| ? ? ? ? Hb _]. subst.
  specialize (Hb 0%nat 0%nat ltac:(lia)). cbn in Hb. lra.
Qed.

(** ** Scaling the input *)

Section Scaling.

Local Open Scope R_scope.

Variable k : R.

Lemma Rsum_scale (l : list R) : Rsum (map (Rmult k) l) = k * Rsum l.
Proof.
  unfold Rsum. induction l as [| v l IH]; cbn [map fold_right]; [ring |].
  rewrite IH. ring.
Qed.

Lemma mean_scale (l : list R) : mean (map (Rmult k) l) = k * mean l.
Proof.
  unfold mean. rewrite Rsum_scale, length_map. unfold Rdiv. ring.
Qed.





(** The unbiased deviation is homogeneous for a non-negative factor. *)
Lemma std_scale (l : list R) : 0 <= k -> std (map (Rmult k) l) = k * std l.
Proof.
  intros Hk. unfold std. rewrite mean_scale, length_map, map_map.
  rewrite (map_ext (fun v => (k * v - k * mean l) * (k * v - k * mean l))
                   (fun v => (k * k) * ((v - mean l) * (v - mean l))))
    by (intros v; ring).
  rewrite <- (map_map (fun v => (v - mean l) * (v - mean l)) (Rmult (k * k))).
  unfold Rsum at 1. fold (Rsum (map (Rmult (k * k))
                                 (map (fun v => (v - mean l) * (v - mean l)) l))).
  assert (E : forall c (l' : list R), Rsum (map (Rmult c) l') = c * Rsum l').
  { intros c l'. unfold Rsum.
    induction l' as [| v l' IH]; cbn [map fold_right]; [ring |].
    rewrite IH. ring. }
  rewrite E.
  replace (k * k * Rsum (map (fun v => (v - mean l) * (v - mean l)) l)
           / (INR (length l) - 1))
    with (k * k * (Rsum (map (fun v => (v - mean l) * (v - mean l)) l)
                   / (INR (length l) - 1)))
    by (unfold Rdiv; ring).
  rewrite sqrt_mult_alt by nra.
  rewrite sqrt_square by exact Hk. reflexivity.
Qed.


End Scaling.



Local Close Scope R_scope.

(** * The theorems at the default configuration and at the small model *)

Local Open Scope Z_scope.


Lemma bottleneck_non_anticipating_toy :
  construct toy_init (toy_config false) = Ok (toy_model false)
  /\ causal (toy_config false) = true
  /\ non_anticipating (fun xs => Ok (bottleneck (toy_model false) xs)).
Proof.
  split; [reflexivity |]. split; [reflexivity |].
  apply (@bottleneck_non_anticipating toy_init (toy_config false) (toy_model false));
    reflexivity.
Defined.







Lemma activation_placement_default :
  exists m : Demucs,
    construct no_init default_config = Ok m
    /\ activations_placed default_config m.
Proof.
  eexists. split; [reflexivity |].
  apply (@activation_placement no_init default_config). reflexivity.
Defined.


(** * Further properties of the code *)

(** ** [valid_length] and [total_stride] *)

Section LengthArithmetic.

Local Open Scope Z_scope.

Variable cfg : Config.

Let k := kernel_conv cfg.
Let s := stride_conv cfg.
Let r := resample cfg.
Let n := levels cfg.
Let dec := decoder_length cfg.

(** One encoder level of [valid_length] when no stride is zero. *)
Let level (l : Z) : Z :=
  conv_out (kernel_glu cfg) (stride_glu cfg) (conv_out k s l).





Hypothesis Haligned : aligned cfg.
Hypothesis Hdepth : 1 <= depth cfg.

Let enc := conv_out k s.
Let ts := s ^ depth cfg / r.



Lemma stride_power : s ^ depth cfg = ts * r.
Proof.
  destruct Haligned as (_ & _ & Hs & _ & Hr & Hsr & _). fold s r in Hs, Hr, Hsr.
  unfold ts. rewrite Z.mul_comm. apply Z.div_exact; [lia |].
  apply Z.mod_divide; [lia |]. apply Z.mod_divide in Hsr; [| lia].
  apply Z.divide_trans with (1 := Hsr).
  exists (s ^ (depth cfg - 1)).
  replace (depth cfg) with (Z.succ (depth cfg - 1)) at 1 by lia.
  rewrite Z.pow_succ_r by lia. ring.
Qed.

Lemma total_stride_aligned : total_stride cfg = Ok ts.
Proof.
  destruct Haligned as (_ & Hsg & _ & _ & Hr & _). fold r in Hr.
  unfold total_stride. rewrite Hsg, Z.mul_1_r. fold s r.
  destruct (Z.ltb_spec (depth cfg) 0); [lia |]. cbn [andb].
  destruct (Z.eqb_spec r 0); [lia |]. reflexivity.
Qed.

Lemma total_stride_ge_1 : 1 <= ts.
Proof.
  destruct Haligned as (_ & _ & Hs & _ & Hr & _). fold s r in Hs, Hr.
  pose proof stride_power as E.
  assert (0 < s ^ depth cfg) by (apply Z.pow_pos_nonneg; lia).
  nia.
Qed.








End LengthArithmetic.






(** X4: in an aligned configuration with at least one level,
    [total_stride] returns a positive step that loses nothing in its floor
    division: [total_stride * resample = stride_conv ** depth]. *)
Theorem total_stride_exact (cfg : Config) :
  aligned cfg ->
  1 <= depth cfg ->
  exists step : Z,
    total_stride cfg = Ok step
    /\ 1 <= step
    /\ step * resample cfg = stride_conv cfg ^ depth cfg.
Proof.
  intros Ha Hd. eexists.
  split; [apply total_stride_aligned; assumption |].
  split; [apply total_stride_ge_1; assumption |].
  symmetry. apply stride_power; assumption.
Qed.

Lemma total_stride_exact_default :
  aligned default_config
  /\ 1 <= depth default_config
  /\ exists step : Z,
       total_stride default_config = Ok step
       /\ 1 <= step
       /\ step * resample default_config
          = stride_conv default_config ^ depth default_config.
Proof.
  split; [unfold aligned; simpl; repeat split; lia |].
  split; [simpl; lia |].
  apply (@total_stride_exact default_config).
  - unfold aligned; simpl; repeat split; lia.
  - simpl; lia.
Defined.







(** ** [encode], [bottleneck] and [forward] on shapes *)

Section ForwardProperties.

Local Open Scope Z_scope.

(** [encode] runs the encoder loop of [forward] and drops the skips. *)
Lemma encoder_shape_skips (blocks : list Sequential) :
  forall (x : shape) (skips : list shape),
    encoder_shape blocks x
    = (xs <- encode_shape blocks x skips ;; Ok (fst xs)).
Proof.
  induction blocks as [| b blocks IH]; intros x skips; [reflexivity |].
  cbn [encoder_shape encode_shape].
  destruct (sequential_shape b x) as [y |]; cbn [bind]; [| reflexivity].
  apply IH.
Qed.

Lemma encode_shape_length (blocks : list Sequential) :
  forall (x y : shape) (skips skips' : list shape),
    encode_shape blocks x skips = Ok (y, skips') ->
    length skips' = (length blocks + length skips)%nat.
Proof.
  induction blocks as [| b blocks IH]; intros x y skips skips' H.
  - injection H as _ <-. reflexivity.
  - cbn [encode_shape] in H.
    destruct (sequential_shape b x) as [z |]; cbn [bind] in H;
      [| discriminate].
    apply IH in H. cbn [length] in *. lia.
Qed.

Variable m : Demucs.

Lemma forward_prefix_encode (x : shape) :
  match encode_output_shape m x with
  | Raise e => forward_prefix m x = Raise e
  | Ok enc =>
      exists (skips : list shape) (length : Z) (std : shape),
        forward_prefix m x
        = (b <- bottleneck_shape m enc ;; Ok (b, skips, length, std))
  end.
Proof.
  unfold encode_output_shape, encode_mono, forward_prefix, forward_encode.
  destruct (Z.of_nat (length x) <? 2); [reflexivity |]. cbv zeta.
  set (x1 := mean_dim1 _).
  destruct (normalize (config m)).
  all: match goal with
       | |- context [bind ?r _] =>
           destruct r as [x2 |]; cbn [bind]; [| reflexivity]
       end.
  all: destruct (valid_length (config m) (last_dim x2)) as [v |]; cbn [bind];
    [| reflexivity].
  all: destruct (pad_last x2 (v - last_dim x2)) as [x3 |]; cbn [bind];
    [| reflexivity].
  all: destruct (resample_shape upsample2_shape (resample (config m)) x3)
    as [x4 |]; cbn [bind]; [| reflexivity].
  all: rewrite (encoder_shape_skips (encoder m) x4 []).
  all: destruct (encode_shape (encoder m) x4 []) as [[enc skips] |];
    cbn [bind fst snd]; [| reflexivity].
  all: eauto.
Qed.

End ForwardProperties.

(** X8: [forward] encodes as [encode] does: when [encode] raises on an
    input, [forward] raises the same exception; and when [forward] returns,
    [encode] returns on the same input and the bottleneck accepts what it
    returns. *)
Theorem forward_runs_encode (m : Demucs) (x : shape) :
  (forall e : exn,
     encode_output_shape m x = Raise e -> forward_shape m x = Raise e)
  /\ (forall y : shape,
        forward_shape m x = Ok y ->
        exists enc b : shape,
          encode_output_shape m x = Ok enc /\ bottleneck_shape m enc = Ok b).
Proof.
  pose proof (forward_prefix_encode m x) as H.
  unfold forward_shape, forward_log. split.
  - intros e E. rewrite E in H. rewrite H. reflexivity.
  - intros y Hy.
    destruct (encode_output_shape m x) as [enc | e].
    + destruct H as (skips & len & std & H).
      destruct (bottleneck_shape m enc) as [b | e] eqn:Eb;
        [exists enc, b; split; [reflexivity | exact Eb] |].
      cbn [bind] in H. rewrite H in Hy. discriminate Hy.
    + rewrite H in Hy. discriminate Hy.
Qed.

Lemma forward_runs_encode_default :
  exists m : Demucs,
    construct no_init default_config = Ok m
    /\ (forall e : exn,
          encode_output_shape m [2; 1; 16000] = Raise e ->
          forward_shape m [2; 1; 16000] = Raise e)
    /\ (forall y : shape,
          forward_shape m [2; 1; 16000] = Ok y ->
          exists enc b : shape,
            encode_output_shape m [2; 1; 16000] = Ok enc
            /\ bottleneck_shape m enc = Ok b).
Proof.
  eexists. split; [reflexivity |].
  apply (@forward_runs_encode _ [2; 1; 16000]).
Defined.

(** *** The exceptions of [forward] *)

Ltac raised :=
  repeat match goal with
         | |- context [if ?b then _ else _] => destruct b
         | |- context [match ?o with Some _ => _ | None => _ end] => destruct o
         end;
  cbn [bind];
  intros H; try discriminate H; injection H as <-; reflexivity.

Section ForwardExceptions.

Local Open Scope Z_scope.

Lemma broadcast_rev_raise (a : list Z) :
  forall (b : list Z) (e : exn),
    broadcast_rev a b = Raise e -> e = RuntimeError.
Proof.
  induction a as [| x a IH]; intros b e; [discriminate |].
  destruct b as [| y b]; [discriminate |].
  cbn [broadcast_rev].
  destruct (broadcast_rev a b) as [r | e'] eqn:E; cbn [bind].
  - raised.
  - intros H. injection H as <-. apply (IH _ _ E).
Qed.

Lemma broadcast_raise (a b : shape) (e : exn) :
  broadcast a b = Raise e -> e = RuntimeError.
Proof.
  unfold broadcast.
  destruct (broadcast_rev (rev a) (rev b)) as [r | e'] eqn:E; cbn [bind];
    [discriminate |].
  intros H. injection H as <-. apply (broadcast_rev_raise _ _ E).
Qed.

Lemma module_shape_raise (a : Module) (s : shape) (e : exn) :
  module_shape a s = Raise e -> e = RuntimeError.
Proof.
  destruct a as [c | c | | | d | l]; cbn [module_shape].
  - unfold conv1d_shape.
    destruct s as [| a0 [| a1 [| a2 [| a3 rest]]]]; raised.
  - unfold conv_transpose1d_shape.
    destruct s as [| a0 [| a1 [| a2 [| a3 rest]]]]; raised.
  - discriminate.
  - discriminate.
  - unfold glu_shape. raised.
  - unfold linear_shape. destruct s; raised.
Qed.

Lemma sequential_shape_raise (block : Sequential) :
  forall (s : shape) (e : exn),
    sequential_shape block s = Raise e -> e = RuntimeError.
Proof.
  induction block as [| a block IH]; intros s e; [discriminate |].
  cbn [sequential_shape].
  destruct (module_shape a s) as [s' | e'] eqn:E; cbn [bind].
  - apply IH.
  - intros H. injection H as <-. apply (module_shape_raise _ _ E).
Qed.

Lemma encode_shape_raise (blocks : list Sequential) :
  forall (x : shape) (skips : list shape) (e : exn),
    encode_shape blocks x skips = Raise e -> e = RuntimeError.
Proof.
  induction blocks as [| b blocks IH]; intros x skips e; [discriminate |].
  cbn [encode_shape].
  destruct (sequential_shape b x) as [y | e'] eqn:E; cbn [bind].
  - apply IH.
  - intros H. injection H as <-. apply (sequential_shape_raise _ _ E).
Qed.

(** With a skip for every block, the decoder loop never pops an empty
    stack. *)
Lemma decode_shape_raise (blocks : list Sequential) :
  forall (x : shape) (skips : list shape) (e : exn),
    (length blocks <= length skips)%nat ->
    snd (decode_shape blocks x skips) = Raise e -> e = RuntimeError.
Proof.
  induction blocks as [| b blocks IH]; intros x skips e Hlen; [discriminate |].
  destruct skips as [| skip skips]; [cbn [length] in Hlen; lia |].
  cbn [decode_shape length] in *.
  destruct (broadcast x (slice_last skip (last_dim x))) as [y | e'] eqn:Eb;
    cbn [bind].
  - destruct (sequential_shape b y) as [z | e'] eqn:Es.
    + specialize (IH z skips e ltac:(lia)).
      destruct (decode_shape blocks z skips) as [log r]. exact IH.
    + cbn [snd]. intros H. injection H as <-.
      apply (sequential_shape_raise _ _ Es).
  - cbn [snd]. intros H. injection H as <-. apply (broadcast_raise _ _ Eb).
Qed.

Lemma bottleneck_shape_raise (m : Demucs) (x : shape) (e : exn) :
  bottleneck_shape m x = Raise e -> e = RuntimeError.
Proof.
  unfold bottleneck_shape, permute_201.
  destruct x as [| a0 [| a1 [| a2 [| a3 rest]]]]; cbn [bind];
    try (intros H; injection H as <-; reflexivity).
  unfold lstm_shape.
  destruct (a1 =? input_size (rnn m)); cbn [bind];
    [| intros H; injection H as <-; reflexivity].
  destruct (module_shape (linear m) _) as [y | e'] eqn:E; cbn [bind].
  - unfold permute_120.
    destruct y as [| d0 [| d1 [| d2 [| d3 rest]]]]; raised.
  - intros H. injection H as <-. apply (module_shape_raise _ _ E).
Qed.

Lemma valid_length_raise (cfg : Config) (l : Z) (e : exn) :
  valid_length cfg l = Raise e -> e = ZeroDivisionError.
Proof.
  assert (Hc : forall a b e', ceil_div a b = Raise e' -> e' = ZeroDivisionError)
    by (intros a b e'; unfold ceil_div; raised).
  assert (Hl : forall kk ss y e', conv_length kk ss y = Raise e'
                                  -> e' = ZeroDivisionError).
  { intros kk ss y e'. unfold conv_length.
    destruct (ceil_div (y - kk) ss) as [q | e''] eqn:E; cbn [bind];
      [discriminate |].
    intros H. injection H as <-. apply (Hc _ _ _ E). }
  assert (He : forall y e', encoder_length cfg y = Raise e'
                            -> e' = ZeroDivisionError).
  { intros y e'. unfold encoder_length.
    destruct (conv_length (kernel_conv cfg) (stride_conv cfg) y)
      as [q | e''] eqn:E; cbn [bind]; [apply Hl |].
    intros H. injection H as <-. apply (Hl _ _ _ _ E). }
  assert (Hi : forall j y e', iterM j (encoder_length cfg) y = Raise e'
                              -> e' = ZeroDivisionError).
  { induction j as [| j IH]; intros y e'; [discriminate |].
    cbn [iterM].
    destruct (encoder_length cfg y) as [q | e''] eqn:E; cbn [bind];
      [apply IH |].
    intros H. injection H as <-. apply (He _ _ E). }
  unfold valid_length.
  destruct (iterM _ _ _) as [q | e'] eqn:E; cbn [bind]; [apply Hc |].
  intros H. injection H as <-. apply (Hi _ _ _ E).
Qed.

Variable init : Init.
Variable cfg : Config.
Variable m : Demucs.
Hypothesis Hm : construct init cfg = Ok m.

Lemma same_depth : length (decoder m) = length (encoder m).
Proof.
  destruct (@construct_inv _ _ _ Hm) as (_ & _ & He & Hd & _).
  rewrite He, Hd, !length_map. reflexivity.
Qed.

Lemma forward_encode_raise (x : shape) (e : exn) :
  forward_encode m x = Raise e ->
  e = RuntimeError \/ e = ZeroDivisionError.
Proof.
  unfold forward_encode. cbv zeta.
  match goal with
  | |- bind ?r _ = _ -> _ => destruct r as [x2 | e'] eqn:E2; cbn [bind]
  end.
  2: { intros H. injection H as <-. left.
       destruct (normalize (config m)); [| discriminate E2].
       apply (broadcast_raise _ _ E2). }
  destruct (valid_length (config m) (last_dim x2)) as [v | e'] eqn:Ev;
    cbn [bind].
  2: { intros H. injection H as <-. right. apply (valid_length_raise _ _ Ev). }
  destruct (pad_last x2 (v - last_dim x2)) as [x3 | e'] eqn:Ep; cbn [bind].
  2: { intros H. injection H as <-. left. revert Ep. unfold pad_last. raised. }
  destruct (resample_shape upsample2_shape (resample (config m)) x3)
    as [x4 | e'] eqn:Er; cbn [bind].
  2: { exfalso. revert Er. unfold resample_shape, upsample2_shape.
       destruct (_ =? 2); [discriminate |].
       destruct (_ =? 4); cbn [bind]; discriminate. }
  destruct (encode_shape (encoder m) x4 []) as [xs | e'] eqn:Ee; cbn [bind].
  2: { intros H. injection H as <-. left. apply (encode_shape_raise _ _ _ Ee). }
  destruct (bottleneck_shape m (fst xs)) as [b | e'] eqn:Eb; cbn [bind];
    [discriminate |].
  intros H. injection H as <-. left. apply (bottleneck_shape_raise _ _ Eb).
Qed.

Lemma forward_encode_skips (x b : shape) (skips : list shape) (len : Z)
    (std : shape) :
  forward_encode m x = Ok (b, skips, len, std) ->
  length skips = length (encoder m).
Proof.
  unfold forward_encode. cbv zeta.
  match goal with
  | |- bind ?r _ = _ -> _ => destruct r as [x2 |]; cbn [bind]; [| discriminate]
  end.
  destruct (valid_length _ _) as [v |]; cbn [bind]; [| discriminate].
  destruct (pad_last _ _) as [x3 |]; cbn [bind]; [| discriminate].
  destruct (resample_shape _ _ _) as [x4 |]; cbn [bind]; [| discriminate].
  destruct (encode_shape (encoder m) x4 []) as [[y sk] |] eqn:Ee; cbn [bind];
    [| discriminate].
  destruct (bottleneck_shape m _) as [b' |]; cbn [bind]; [| discriminate].
  intros H. injection H as _ <- _ _. cbn [snd].
  apply encode_shape_length in Ee. cbn [length] in Ee. lia.
Qed.

Lemma forward_shape_raise (x : shape) (e : exn) :
  forward_shape m x = Raise e ->
  (e = AssertionError /\ (length x < 2)%nat)
  \/ e = ZeroDivisionError \/ e = RuntimeError \/ e = OutsideContract.
Proof.
  unfold forward_shape, forward_log.
  destruct (forward_prefix m x) as [[[[b skips] len] std] | e'] eqn:Ep.
  - unfold forward_prefix in Ep.
    destruct (Z.of_nat (length x) <? 2); [discriminate |].
    apply forward_encode_skips in Ep.
    pose proof (@decode_shape_raise (decoder m) b skips) as Hd.
    destruct (decode_shape (decoder m) b skips) as [log r]. cbn [snd] in *.
    destruct r as [y | e']; cbn [bind].
    + destruct (resample_shape downsample2_shape (resample (config m)) y)
        as [z | e'] eqn:Er; cbn [bind].
      * intros H. apply broadcast_raise in H. auto.
      * intros H. injection H as <-. right. right. right.
        revert Er. unfold resample_shape, downsample2_shape.
        destruct (_ =? 2); [raised |].
        destruct (_ =? 4); [| discriminate].
        destruct (Z.even (last_dim y)); cbn [bind]; raised.
    + intros H. injection H as <-. right. right. left.
      apply Hd; [rewrite same_depth; lia | reflexivity].
  - cbn [snd]. intros H. injection H as <-.
    unfold forward_prefix in Ep.
    destruct (Z.ltb_spec (Z.of_nat (length x)) 2) as [Hlt | _].
    + injection Ep as <-. left. split; [reflexivity | lia].
    + apply forward_encode_raise in Ep. destruct Ep; auto.
Qed.

End ForwardExceptions.

(** X9: on a constructed model [forward] raises its assertion error exactly
    for inputs of fewer than two axes, and returns only for inputs of two
    or three axes: four or more do not pass the first convolution. *)
Theorem forward_rank (init : Init) (cfg : Config) (m : Demucs) (x : shape) :
  construct init cfg = Ok m ->
  ((length x < 2)%nat <-> forward_shape m x = Raise AssertionError)
  /\ (forall y : shape,
        forward_shape m x = Ok y -> length x = 2%nat \/ length x = 3%nat).
Proof.
  intros Hm. split; [split |].
  - intros Hlt. unfold forward_shape, forward_log, forward_prefix.
    destruct (Z.ltb_spec (Z.of_nat (length x)) 2); [reflexivity | lia].
  - intros H. apply (@forward_shape_raise _ _ _ Hm) in H.
    destruct H as [[_ H] | [H | [H | H]]]; [exact H | discriminate H ..].
  - intros y Hy. unfold forward_shape, forward_log in Hy.
    destruct (forward_prefix m x) as [out |] eqn:Ep; [| discriminate Hy].
    unfold forward_prefix in Ep.
    destruct (Z.ltb_spec (Z.of_nat (length x)) 2) as [| Hge];
      [discriminate Ep |].
    destruct (Nat.le_gt_cases 4 (length x)) as [H4 | H4]; [| lia].
    exfalso. apply (@forward_encode_high_rank _ _ _ Hm) in Ep; [exact Ep |].
    destruct (Z.eqb_spec (Z.of_nat (length x)) 2); [lia |].
    destruct x as [| a [| b rest]]; cbn [mean_dim1 length] in *; lia.
Qed.

Lemma forward_rank_default :
  exists m : Demucs,
    construct no_init default_config = Ok m
    /\ ((length [16000%Z] < 2)%nat
        <-> forward_shape m [16000] = Raise AssertionError)
    /\ (forall y : shape,
          forward_shape m [16000] = Ok y ->
          length [16000%Z] = 2%nat \/ length [16000%Z] = 3%nat).
Proof.
  eexists. split; [reflexivity |].
  apply (@forward_rank no_init default_config _ [16000]). reflexivity.
Defined.

(** X10: whatever the configuration and the input, [forward] on a
    constructed model raises nothing but its assertion error, a division
    by zero (from [valid_length]), a shape error of the tensor library, or
    leaves the resampler outside its contract; in particular
    [skips.pop(-1)] never meets an empty list. *)
Theorem forward_exceptions (init : Init) (cfg : Config) (m : Demucs)
    (x : shape) (e : exn) :
  construct init cfg = Ok m ->
  forward_shape m x = Raise e ->
  (e = AssertionError \/ e = ZeroDivisionError \/ e = RuntimeError
   \/ e = OutsideContract)
  /\ e <> IndexError.
Proof.
  intros Hm H. apply (@forward_shape_raise _ _ _ Hm) in H.
  destruct H as [[-> _] | [-> | [-> | ->]]]; split; auto; discriminate.
Qed.

Lemma forward_exceptions_glu2 :
  exists m : Demucs,
    construct no_init glu2_config = Ok m
    /\ forward_shape m [2; 1; 16000] = Raise RuntimeError
    /\ (RuntimeError = AssertionError \/ RuntimeError = ZeroDivisionError
        \/ RuntimeError = RuntimeError \/ RuntimeError = OutsideContract)
    /\ RuntimeError <> IndexError.
Proof.
  eexists. split; [reflexivity |].
  split; [vm_compute; reflexivity |].
  eapply (@forward_exceptions no_init glu2_config _ [2; 1; 16000] RuntimeError).
  - reflexivity.
  - vm_compute. reflexivity.
Defined.

(** *** Aligned configurations: the skips and the encoder output *)

Section AlignedForward.

Local Open Scope Z_scope.

Variable init : Init.
Variable cfg : Config.
Variable m : Demucs.
Hypothesis Haligned : aligned cfg.
Hypothesis Hwf : well_formed cfg.
Hypothesis Hm : construct init cfg = Ok m.

Variables B L : Z.
Hypothesis HL : 0 < L.

Let n := levels cfg.
Let dec := decoder_length cfg.
Let bottom := bottleneck_length cfg L.

Lemma forward_log_aligned (x : shape) :
  forward_prefix m x = forward_encode m [B; 1; L] ->
  fst (forward_log m x)
  = map (fun i => (Nat.iter (n - i) dec bottom, Nat.iter (n - i) dec bottom))
        (rev (seq 1 n)).
Proof.
  destruct (@model_eq _ _ _ Hwf Hm) as (_ & Hd & _).
  intros Hx. unfold forward_log.
  rewrite Hx, (@forward_encode_states _ _ _ Haligned Hwf Hm B L HL), Hd.
  pose proof (@decode_states init cfg Haligned Hwf B L _ (Nat.le_refl n)) as E.
  fold n in E |- *. rewrite Nat.sub_diag in E. rewrite E. reflexivity.
Qed.

Let k := kernel_conv cfg.
Let s := stride_conv cfg.
Let r := resample cfg.
Let top := decoded_length cfg L.
Let valid := ceil_quot top r.


End AlignedForward.

(** X11: in an aligned and well-formed configuration the decoder is
    entered [depth] times, and at every level the decoder input and the
    skip popped for it have the same time length: the crop
    [skip[..., :x.shape[-1]]] removes nothing. *)
Theorem skips_match_exactly (init : Init) (cfg : Config) (m : Demucs)
    (B C L : Z) :
  aligned cfg -> well_formed cfg ->
  construct init cfg = Ok m ->
  0 < L ->
  fst (forward_log m [B; C; L])
  = map (fun i =>
           let t := Nat.iter (levels cfg - i) (decoder_length cfg)
                      (bottleneck_length cfg L) in
           (t, t))
        (rev (seq 1 (levels cfg))).
Proof.
  intros Ha Hw Hm HL.
  apply (@forward_log_aligned init cfg m Ha Hw Hm B L HL). reflexivity.
Qed.

Lemma skips_match_exactly_default :
  aligned default_config /\ well_formed default_config
  /\ exists m : Demucs,
       construct no_init default_config = Ok m
       /\ 0 < 16000
       /\ fst (forward_log m [2; 1; 16000])
          = map (fun i =>
                   let t := Nat.iter (levels default_config - i)
                              (decoder_length default_config)
                              (bottleneck_length default_config 16000) in
                   (t, t))
                (rev (seq 1 (levels default_config))).
Proof.
  split; [unfold aligned; simpl; repeat split; lia |].
  split; [exact default_well_formed |].
  eexists. split; [reflexivity |]. split; [lia |].
  apply (@skips_match_exactly no_init default_config _ 2 1 16000).
  - unfold aligned; simpl; repeat split; lia.
  - exact default_well_formed.
  - reflexivity.
  - lia.
Defined.



(** The shapes [bottleneck] accepts, and what it returns. *)
Lemma bottleneck_shape_constructed (init : Init) (cfg : Config) (m : Demucs)
    (x : shape) :
  construct init cfg = Ok m ->
  bottleneck_shape m x
  = match x with
    | [B; C; T] =>
        if C =? encoder_channels cfg then Ok x else Raise RuntimeError
    | _ => Raise RuntimeError
    end.
Proof.
  intros Hm.
  destruct (@construct_inv _ _ _ Hm) as (_ & _ & _ & _ & Hr & Hl).
  fold (encoder_channels cfg) in Hr, Hl.
  unfold nn.LSTM in Hr.
  destruct (encoder_channels cfg <=? 0); [discriminate Hr |].
  cbn [Z.leb Z.compare Pos.compare] in Hr.
  destruct (encoder_channels cfg <? 0); [discriminate Hr |].
  injection Hr as Hr.
  unfold bottleneck_shape.
  destruct x as [| B [| C [| T [| d rest]]]]; try reflexivity.
  cbn [permute_201 bind]. unfold lstm_shape. rewrite <- Hr.
  cbn [input_size hidden_size bidirectional].
  destruct (Z.eqb_spec C (encoder_channels cfg)) as [-> | Hne]; cbn [bind];
    [| reflexivity].
  destruct (causal cfg); cbn [negb].
  - rewrite Hl. cbn [module_shape bind permute_120].
    rewrite Z.mul_1_r. reflexivity.
  - unfold nn.Linear in Hl.
    destruct ((_ <? 0) || (_ <? 0)) in Hl; [discriminate Hl |].
    injection Hl as <-. cbn [module_shape]. unfold linear_shape.
    unfold last_dim, set_last. cbn [last removelast app in_features out_features].
    rewrite Z.mul_comm, Z.eqb_refl. reflexivity.
Qed.


(** Without encoder blocks the mono signal reaches the bottleneck with its
    single channel. *)
Lemma forward_encode_without_levels (init : Init) (cfg : Config) (m : Demucs)
    (B L : Z) (out : shape * list shape * Z * shape) :
  depth cfg <= 0 ->
  construct init cfg = Ok m ->
  encoder_channels cfg <> 1 ->
  forward_encode m [B; 1; L] <> Ok out.
Proof.
  intros Hd Hm Hec.
  destruct (@construct_inv _ _ _ Hm) as (_ & Hc & He & _).
  unfold forward_encode. rewrite Hc. cbv zeta.
  assert (En : levels cfg = 0%nat) by (unfold levels; lia).
  destruct (normalize cfg);
    [unfold set_last at 1; cbn [removelast app]; rewrite broadcast_std |];
    cbn [bind]; unfold last_dim at 1 2; cbn [last];
    (destruct (valid_length cfg L) as [v |]; cbn [bind]; [| discriminate]);
    unfold pad_last, last_dim, set_last; cbn [last removelast app];
    (destruct (L + (v - L) <? 0); cbn [bind]; [discriminate |]);
    destruct (@resample_up_time cfg B 1 (L + (v - L))) as (t' & ->);
    cbn [bind]; rewrite He, En; cbn [seq map encode_shape bind fst];
    rewrite (@bottleneck_shape_constructed init cfg m _ Hm);
    (destruct (Z.eqb_spec 1 (encoder_channels cfg)) as [E |];
     [symmetry in E; contradiction |]); discriminate.
Qed.



(** *** The rescaling pass and the shapes *)

Section RescaleShapes.

Variable cfg : Config.

Lemma encode_shape_rescale_pass (g : nat -> Sequential) (l : list nat) :
  forall (x : shape) (skips : list shape),
    encode_shape (map (fun i => map (rescale_pass cfg) (g i)) l) x skips
    = encode_shape (map g l) x skips.
Proof.
  induction l as [| i l IH]; intros x skips; [reflexivity |].
  cbn [map encode_shape]. rewrite sequential_shape_rescale_pass.
  destruct (sequential_shape (g i) x) as [y |]; cbn [bind]; [| reflexivity].
  apply IH.
Qed.

Lemma decode_shape_rescale_pass (g : nat -> Sequential) (l : list nat) :
  forall (x : shape) (skips : list shape),
    decode_shape (map (fun i => map (rescale_pass cfg) (g i)) l) x skips
    = decode_shape (map g l) x skips.
Proof.
  induction l as [| i l IH]; intros x skips; [reflexivity |].
  cbn [map decode_shape]. destruct skips as [| skip skips]; [reflexivity |].
  destruct (broadcast x (slice_last skip (last_dim x))) as [y |]; cbn [bind];
    [| reflexivity].
  rewrite sequential_shape_rescale_pass.
  destruct (sequential_shape (g i) y) as [z |]; [| reflexivity].
  rewrite IH. reflexivity.
Qed.

End RescaleShapes.

(** X14: the rescaling pass of the constructor changes no shape and no
    error: on every input, [forward] (with its decoder log) and [encode]
    behave on the constructed model as on the model of the same
    construction without the pass. *)
Theorem rescale_keeps_shapes (init : Init) (cfg : Config) (m : Demucs) :
  construct init cfg = Ok m ->
  exists m0 : Demucs,
    construct init (without_rescale cfg) = Ok m0
    /\ forall x : shape,
         forward_log m x = forward_log m0 x
         /\ encode_output_shape m x = encode_output_shape m0 x.
Proof.
  intros Hm.
  destruct (@construct_inv _ _ _ Hm) as (_ & Hc & He & Hd & _).
  eexists. split; [apply construct_without_rescale, Hm |].
  intros x. split.
  - unfold forward_log, forward_prefix, forward_encode, bottleneck_shape.
    rewrite Hc, He, Hd. cbn [config encoder decoder rnn linear].
    destruct (Z.of_nat (length x) <? 2); [reflexivity |]. cbv zeta.
    change (normalize (without_rescale cfg)) with (normalize cfg).
    change (resample (without_rescale cfg)) with (resample cfg).
    change (valid_length (without_rescale cfg)) with (valid_length cfg).
    match goal with
    | |- context [bind ?r _] => destruct r as [x2 |]; cbn [bind];
                                [| reflexivity]
    end.
    destruct (valid_length cfg (last_dim x2)) as [v |]; cbn [bind];
      [| reflexivity].
    destruct (pad_last x2 (v - last_dim x2)) as [x3 |]; cbn [bind];
      [| reflexivity].
    destruct (resample_shape upsample2_shape (resample cfg) x3) as [x4 |];
      cbn [bind]; [| reflexivity].
    rewrite encode_shape_rescale_pass.
    destruct (encode_shape _ x4 []) as [[enc skips] |]; cbn [bind fst snd];
      [| reflexivity].
    match goal with
    | |- context [bind ?r _] => destruct r as [b |]; cbn [bind];
                                [| reflexivity]
    end.
    rewrite decode_shape_rescale_pass. reflexivity.
  - unfold encode_output_shape, encode_mono.
    rewrite Hc, He. cbn [config encoder].
    destruct (Z.of_nat (length x) <? 2); [reflexivity |]. cbv zeta.
    change (normalize (without_rescale cfg)) with (normalize cfg).
    change (resample (without_rescale cfg)) with (resample cfg).
    change (valid_length (without_rescale cfg)) with (valid_length cfg).
    match goal with
    | |- context [bind ?r _] => destruct r as [x2 |]; cbn [bind];
                                [| reflexivity]
    end.
    destruct (valid_length cfg (last_dim x2)) as [v |]; cbn [bind];
      [| reflexivity].
    destruct (pad_last x2 (v - last_dim x2)) as [x3 |]; cbn [bind];
      [| reflexivity].
    destruct (resample_shape upsample2_shape (resample cfg) x3) as [x4 |];
      cbn [bind]; [| reflexivity].
    rewrite !(encoder_shape_skips _ x4 []), encode_shape_rescale_pass.
    reflexivity.
Qed.

Lemma rescale_keeps_shapes_default :
  exists m : Demucs,
    construct no_init default_config = Ok m
    /\ exists m0 : Demucs,
         construct no_init (without_rescale default_config) = Ok m0
         /\ forall x : shape,
              forward_log m x = forward_log m0 x
              /\ encode_output_shape m x = encode_output_shape m0 x.
Proof.
  eexists. split; [reflexivity |].
  apply (@rescale_keeps_shapes no_init default_config). reflexivity.
Defined.

(** *** The output is never longer than the input *)

Section NeverLengthens.

Local Open Scope Z_scope.

Lemma last_dim_set_last (s : shape) (n : Z) : last_dim (set_last s n) = n.
Proof. unfold last_dim, set_last. apply last_last. Qed.

Lemma set_last_not_nil (s : shape) (n : Z) : set_last s n <> [].
Proof. unfold set_last. destruct (removelast s); discriminate. Qed.

(** Broadcasting against an operand with one time step keeps the time
    length of the other operand. *)
Lemma broadcast_last_one (a b y : shape) :
  a <> [] -> b <> [] -> last_dim a = 1 \/ last_dim b = 1 ->
  broadcast a b = Ok y ->
  (last_dim a = 1 -> last_dim y = last_dim b)
  /\ (last_dim b = 1 -> last_dim y = last_dim a).
Proof.
  intros Ha Hb H1.
  destruct (exists_last Ha) as (a' & t & ->).
  destruct (exists_last Hb) as (b' & u & ->).
  unfold last_dim in *. rewrite !last_last in *.
  unfold broadcast. rewrite !rev_app_distr. cbn [rev app broadcast_rev].
  destruct (broadcast_rev (rev a') (rev b')) as [r |]; cbn [bind];
    [| discriminate].
  destruct (Z.eqb_spec t u) as [-> | Htu]; cbn [bind].
  - intros E. injection E as <-. cbn [rev]. rewrite last_last. auto.
  - destruct (Z.eqb_spec t 1) as [-> | Ht]; cbn [bind].
    + intros E. injection E as <-. cbn [rev]. rewrite last_last.
      split; [reflexivity | intros ->; contradiction].
    + destruct (Z.eqb_spec u 1) as [-> | Hu]; cbn [bind]; [| discriminate].
      intros E. injection E as <-. cbn [rev]. rewrite last_last.
      split; [intros ->; contradiction | reflexivity].
Qed.

Variable m : Demucs.

Lemma forward_encode_length (x b : shape) (skips : list shape) (len : Z)
    (std : shape) :
  x <> [] ->
  forward_encode m x = Ok (b, skips, len, std) ->
  len = last_dim x /\ (std = [] \/ (std <> [] /\ last_dim std = 1)).
Proof.
  intros Hx. unfold forward_encode. cbv zeta.
  destruct (normalize (config m)).
  - destruct (broadcast x (set_last x 1)) as [x2 |] eqn:Eb; cbn [bind];
      [| discriminate].
    apply broadcast_last_one in Eb;
      [| exact Hx | apply set_last_not_nil
       | right; apply last_dim_set_last].
    destruct Eb as [_ Eb]. specialize (Eb (last_dim_set_last x 1)).
    destruct (valid_length _ _) as [v |]; cbn [bind]; [| discriminate].
    destruct (pad_last _ _) as [x3 |]; cbn [bind]; [| discriminate].
    destruct (resample_shape _ _ _) as [x4 |]; cbn [bind]; [| discriminate].
    destruct (encode_shape _ _ _) as [xs |]; cbn [bind]; [| discriminate].
    destruct (bottleneck_shape _ _) as [b' |]; cbn [bind]; [| discriminate].
    intros E. injection E as _ _ <- <-. split; [exact Eb |].
    right. split; [apply set_last_not_nil | apply last_dim_set_last].
  - cbn [bind].
    destruct (valid_length _ _) as [v |]; cbn [bind]; [| discriminate].
    destruct (pad_last _ _) as [x3 |]; cbn [bind]; [| discriminate].
    destruct (resample_shape _ _ _) as [x4 |]; cbn [bind]; [| discriminate].
    destruct (encode_shape _ _ _) as [xs |]; cbn [bind]; [| discriminate].
    destruct (bottleneck_shape _ _) as [b' |]; cbn [bind]; [| discriminate].
    intros E. injection E as _ _ <- <-. auto.
Qed.

Lemma forward_prefix_length (x b : shape) (skips : list shape) (len : Z)
    (std : shape) :
  forward_prefix m x = Ok (b, skips, len, std) ->
  len = last_dim x /\ (std = [] \/ (std <> [] /\ last_dim std = 1)).
Proof.
  unfold forward_prefix.
  destruct x as [| a0 [| a1 [| a2 rest]]]; try discriminate.
  - change (Z.of_nat (length [a0; a1]) <? 2) with false.
    change (Z.of_nat (length [a0; a1]) =? 2) with true.
    cbn [unsqueeze1 mean_dim1]. intros E.
    apply forward_encode_length in E; [exact E | discriminate].
  - destruct (Z.ltb_spec (Z.of_nat (length (a0 :: a1 :: a2 :: rest))) 2)
      as [Hlt | _]; [cbn [length] in Hlt; lia |].
    destruct (Z.eqb_spec (Z.of_nat (length (a0 :: a1 :: a2 :: rest))) 2)
      as [Heq | _]; [cbn [length] in Heq; lia |].
    cbn [mean_dim1]. intros E.
    apply forward_encode_length in E; [exact E | discriminate].
Qed.

End NeverLengthens.

(** X15: whatever the model and the configuration, when [forward] returns,
    its result has at most as many samples as its input: the final crop
    removes what the decoder adds, and nothing is padded back when the
    decoder returns less. *)
Theorem forward_never_lengthens (m : Demucs) (x y : shape) :
  forward_shape m x = Ok y -> last_dim y <= last_dim x.
Proof.
  unfold forward_shape, forward_log.
  destruct (forward_prefix m x) as [[[[b skips] len] std] |] eqn:Ep;
    [| discriminate].
  apply forward_prefix_length in Ep. destruct Ep as [-> Hstd].
  destruct (decode_shape (decoder m) b skips) as [log r]. cbn [snd].
  destruct r as [z |]; cbn [bind]; [| discriminate].
  destruct (resample_shape downsample2_shape (resample (config m)) z)
    as [z2 |]; cbn [bind]; [| discriminate].
  intros E.
  assert (Hs : last_dim (slice_last z2 (last_dim x)) <= last_dim x)
    by (unfold slice_last; rewrite last_dim_set_last; lia).
  destruct Hstd as [-> | [Hne H1]].
  - unfold broadcast in E. cbn [rev broadcast_rev bind] in E.
    injection E as <-. rewrite rev_involutive. exact Hs.
  - apply broadcast_last_one in E;
      [| exact Hne | apply set_last_not_nil | left; exact H1].
    destruct E as [E _]. rewrite (E H1). exact Hs.
Qed.

Lemma forward_never_lengthens_glu3 :
  exists m : Demucs,
    construct no_init glu3_config = Ok m
    /\ forward_shape m [2; 1; 16000] = Ok [2; 1; 15445]
    /\ last_dim [2; 1; 15445] <= last_dim [2; 1; 16000].
Proof.
  eexists. split; [reflexivity |].
  match goal with
  | |- forward_shape ?m ?x = Ok ?y /\ _ =>
      assert (F : forward_shape m x = Ok y) by (vm_compute; reflexivity);
      split; [exact F | exact (@forward_never_lengthens m x y F)]
  end.
Defined.

(** X23: a model constructed with [depth <= 0] (which the constructor
    accepts) has no encoder block, so the mono signal reaches the
    bottleneck with one channel: unless [encoder_channels] is 1, [forward]
    raises on every input. *)
Theorem forward_without_levels (init : Init) (cfg : Config) (m : Demucs)
    (x y : shape) :
  depth cfg <= 0 ->
  construct init cfg = Ok m ->
  encoder_channels cfg <> 1 ->
  forward_shape m x <> Ok y.
Proof.
  intros Hd Hm Hec Hy. unfold forward_shape, forward_log in Hy.
  destruct (forward_prefix m x) as [out |] eqn:Ep; [| discriminate Hy].
  revert Ep. clear Hy.
  destruct x as [| a [| b [| c [| d rest]]]].
  - discriminate.
  - discriminate.
  - apply (@forward_encode_without_levels init cfg m a b out Hd Hm Hec).
  - apply (@forward_encode_without_levels init cfg m a c out Hd Hm Hec).
  - unfold forward_prefix.
    destruct (Z.ltb_spec (Z.of_nat (length (a :: b :: c :: d :: rest))) 2)
      as [Hlt | _]; [cbn [length] in Hlt; lia |].
    destruct (Z.eqb_spec (Z.of_nat (length (a :: b :: c :: d :: rest))) 2)
      as [Heq | _]; [cbn [length] in Heq; lia |].
    apply (@forward_encode_high_rank _ _ _ Hm). cbn [mean_dim1 length]. lia.
Qed.

Lemma forward_without_levels_depth0 :
  depth depth0_config <= 0
  /\ encoder_channels depth0_config <> 1
  /\ exists m : Demucs,
       construct no_init depth0_config = Ok m
       /\ forward_shape m [2; 1; 16000] <> Ok [2; 1; 16000].
Proof.
  split; [simpl; lia |].
  split; [vm_compute; discriminate |].
  eexists. split; [reflexivity |].
  apply (@forward_without_levels no_init depth0_config _ [2; 1; 16000]
           [2; 1; 16000]).
  - simpl; lia.
  - reflexivity.
  - vm_compute; discriminate.
Defined.

(** ** Construction *)

Section ConstructionProperties.

Local Open Scope Z_scope.

Variable init : Init.
Variable cfg : Config.

Lemma rescale_pass_bias_free (a : Module) :
  bias_free a -> bias_free (rescale_pass cfg a).
Proof.
  unfold rescale_pass. destruct (negb (Qeq_bool (rescale cfg) 0)); [| auto].
  destruct a as [c | c | | | d | l]; cbn [rescale_module bias_free bias];
    try auto; intros ->; reflexivity.
Qed.

Lemma blocks_bias_free (i : nat) :
  use_bias cfg = false ->
  Forall bias_free (encoder_block init cfg i)
  /\ Forall bias_free (decoder_block init cfg i).
Proof.
  intros Hb. unfold encoder_block, decoder_block, activation. rewrite Hb.
  split; repeat apply Forall_cons; try apply Forall_nil;
    cbn [bias_free bias optional]; try reflexivity; try exact I;
    match goal with
    | |- bias_free (if ?b then _ else _) => destruct b; exact I
    end.
Qed.

Lemma rev_seq (n : nat) :
  rev (seq 0 n) = map (fun i => (n - 1 - i)%nat) (seq 0 n).
Proof.
  induction n as [| n IH]; [reflexivity |].
  rewrite seq_S at 1. rewrite rev_app_distr. cbn [rev app Nat.add].
  cbn [seq map]. f_equal; [lia |].
  rewrite IH, <- seq_shift, map_map. apply map_ext. intros i. lia.
Qed.

Lemma Forall2_map_in {A B C : Type} (P : B -> C -> Prop) (f : A -> B)
    (g : A -> C) (l : list A) :
  (forall a, In a l -> P (f a) (g a)) -> Forall2 P (map f l) (map g l).
Proof.
  induction l as [| a l IH]; intros H; [constructor |].
  cbn [map]. constructor; [apply H; left; reflexivity |].
  apply IH. intros b Hb. apply H. right. exact Hb.
Qed.

Lemma blocks_mirror (i : nat) :
  (i < levels cfg)%nat ->
  mirrors (map (rescale_pass cfg) (encoder_block init cfg i))
          (map (rescale_pass cfg)
               (decoder_block init cfg (levels cfg - 1 - i))).
Proof.
  intros Hi. unfold levels in *.
  unfold encoder_block, decoder_block. cbn [map].
  rewrite !rescale_pass_activation.
  replace (depth cfg - Z.of_nat (Z.to_nat (depth cfg) - 1 - i) - 1)
    with (Z.of_nat i) by lia.
  unfold rescale_pass, activation.
  destruct (negb (Qeq_bool (rescale cfg) 0)); cbn [rescale_module];
    destruct (original cfg || negb (Z.of_nat i =? 0));
    destruct (Z.of_nat i >? 0); cbn; repeat split.
Qed.

End ConstructionProperties.

(** X16: with [use_bias = false] no layer of the constructed model has a
    bias: no convolution, no transposed convolution, not the projection
    and no direction of a recurrent layer (the rescaling pass adds none). *)
Theorem no_bias_anywhere (init : Init) (cfg : Config) (m : Demucs) :
  use_bias cfg = false ->
  construct init cfg = Ok m ->
  Forall bias_free (all_modules m)
  /\ Forall layer_bias_free (cells (rnn m)).
Proof.
  intros Hb Hm.
  destruct (@construct_inv _ _ _ Hm) as (_ & _ & _ & _ & Hr & Hl).
  split.
  - unfold all_modules. apply Forall_app. split.
    + rewrite (@layers_constructed _ _ _ Hm).
      apply Forall_map, Forall_app. split.
      * apply Forall_concat, Forall_map, Forall_forall. intros i _.
        apply Forall_forall. intros a Ha. apply rescale_pass_bias_free.
        destruct (@blocks_bias_free init cfg i Hb) as [He _].
        rewrite Forall_forall in He. apply He, Ha.
      * apply Forall_concat, Forall_map, Forall_forall. intros i _.
        apply Forall_forall. intros a Ha. apply rescale_pass_bias_free.
        destruct (@blocks_bias_free init cfg i Hb) as [_ Hd].
        rewrite Forall_forall in Hd. apply Hd, Ha.
    + constructor; [| constructor].
      destruct (causal cfg); [rewrite Hl; exact I |].
      unfold nn.Linear in Hl. rewrite Hb in Hl.
      destruct ((_ <? 0) || (_ <? 0)) in Hl; [discriminate Hl |].
      injection Hl as <-. reflexivity.
  - unfold nn.LSTM in Hr. rewrite Hb in Hr.
    destruct (_ <=? 0) in Hr; [discriminate Hr |].
    destruct (2 <=? 0) in Hr; [discriminate Hr |].
    destruct (_ <? 0) in Hr; [discriminate Hr |].
    injection Hr as <-. cbn [cells].
    repeat apply Forall_cons; try apply Forall_nil;
      unfold layer_bias_free, cell_bias_free; cbn [fst snd bias_ih bias_hh];
      destruct (negb (causal cfg)); cbn [bias_ih bias_hh]; auto.
Qed.

Lemma no_bias_anywhere_example :
  use_bias no_bias_config = false
  /\ exists m : Demucs,
       construct no_init no_bias_config = Ok m
       /\ Forall bias_free (all_modules m)
       /\ Forall layer_bias_free (cells (rnn m)).
Proof.
  split; [reflexivity |].
  eexists. split; [reflexivity |].
  apply (@no_bias_anywhere no_init no_bias_config); reflexivity.
Defined.

(** X17: the decoder of a constructed model mirrors its encoder: read in
    reverse order, each decoder block takes the channels its encoder
    block returns and returns the channels that block takes, its
    transposed convolution has that block's kernel and stride, and every
    gated convolution doubles the channels that its GLU halves. *)
Theorem decoder_mirrors_encoder (init : Init) (cfg : Config) (m : Demucs) :
  construct init cfg = Ok m ->
  Forall2 mirrors (encoder m) (rev (decoder m)).
Proof.
  intros Hm.
  destruct (@construct_inv _ _ _ Hm) as (_ & _ & He & Hd & _).
  rewrite He, Hd, <- map_rev, rev_seq, map_map.
  apply Forall2_map_in. intros i Hi. apply in_seq in Hi.
  apply blocks_mirror. lia.
Qed.

Lemma decoder_mirrors_encoder_default :
  exists m : Demucs,
    construct no_init default_config = Ok m
    /\ Forall2 mirrors (encoder m) (rev (decoder m)).
Proof.
  eexists. split; [reflexivity |].
  apply (@decoder_mirrors_encoder no_init default_config). reflexivity.
Defined.



(** *** What [_rescale_conv] does to the deviation of a weight *)

Section RescaleDeviation.

Local Open Scope R_scope.

Variable reference : R.
Hypothesis Hreference : 0 < reference.

Lemma flatten_map (f : R -> R) (w : list (list (list R))) :
  flatten (map (map (map f)) w) = map f (flatten w).
Proof. unfold flatten. rewrite <- !concat_map. reflexivity. Qed.

Lemma std_nonneg (l : list R) : 0 <= std l.
Proof. apply sqrt_pos. Qed.

Lemma geometric_mean (a : R) :
  0 < a -> a / sqrt (a / reference) = sqrt (a * reference).
Proof.
  intros Ha.
  assert (Hsa : 0 < sqrt a) by (apply sqrt_lt_R0, Ha).
  assert (Hsr : 0 < sqrt reference) by (apply sqrt_lt_R0, Hreference).
  rewrite sqrt_div_alt by exact Hreference.
  rewrite sqrt_mult by lra.
  rewrite <- (sqrt_sqrt a) at 1 by lra.
  field. lra.
Qed.

Lemma rescaled_deviation (c : ConvNd) :
  0 < weight_deviation c ->
  std (flatten
         (map (map (map (fun v => v / sqrt (weight_deviation c / reference))))
              (weight c)))
  = sqrt (weight_deviation c * reference).
Proof.
  intros Hc.
  set (scale := sqrt (weight_deviation c / reference)).
  assert (Hs : 0 < scale).
  { apply sqrt_lt_R0. apply Rdiv_lt_0_compat; assumption. }
  rewrite flatten_map.
  rewrite (map_ext (fun v => v / scale) (Rmult (/ scale)))
    by (intros v; unfold Rdiv; ring).
  rewrite std_scale by (left; apply Rinv_0_lt_compat, Hs).
  fold (weight_deviation c).
  rewrite <- (geometric_mean Hc). fold scale. field. lra.
Qed.

Lemma rescale_module_deviation (a : Module) :
  deviation_moved reference a (rescale_module reference a).
Proof.
  destruct a as [c | c | | | d | l]; cbn [rescale_module deviation_moved];
    try exact I; intros Hc; unfold weight_deviation at 1; cbn [weight];
    apply rescaled_deviation, Hc.
Qed.

End RescaleDeviation.

(** X19: with [rescale > 0], every convolution and transposed convolution
    whose initial weight has a positive deviation leaves the constructor
    with a weight whose deviation is the geometric mean of the initial
    deviation and [rescale]: [sqrt(std * rescale)]. *)
Theorem rescale_moves_deviation (init : Init) (cfg : Config) (m : Demucs) :
  (0 < rescale cfg)%Q ->
  construct init cfg = Ok m ->
  exists m0 : Demucs,
    construct init (without_rescale cfg) = Ok m0
    /\ Forall2 (deviation_moved (Q2R (rescale cfg))) (layers m0) (layers m).
Proof.
  intros Hr Hm.
  assert (Hb : Qeq_bool (rescale cfg) 0 = false).
  { destruct (Qeq_bool (rescale cfg) 0) eqn:E; [| reflexivity].
    apply Qeq_bool_iff in E. rewrite E in Hr. discriminate Hr. }
  assert (HR : (0 < Q2R (rescale cfg))%R).
  { apply Qlt_Rlt in Hr. unfold Q2R at 1 in Hr. cbn in Hr. lra. }
  eexists. split; [apply construct_without_rescale, Hm |].
  rewrite (@layers_constructed _ _ _ Hm). unfold layers at 1.
  cbn [encoder decoder].
  apply Forall2_map_r. intros a. unfold rescale_pass. rewrite Hb. cbn [negb].
  apply rescale_module_deviation, HR.
Qed.

Lemma rescale_moves_deviation_toy :
  (0 < rescale default_config)%Q
  /\ exists m : Demucs,
       construct toy_init default_config = Ok m
       /\ exists m0 : Demucs,
            construct toy_init (without_rescale default_config) = Ok m0
            /\ Forall2 (deviation_moved (Q2R (rescale default_config)))
                 (layers m0) (layers m).
Proof.
  split; [reflexivity |].
  eexists. split; [reflexivity |].
  apply (@rescale_moves_deviation toy_init default_config);
    reflexivity.
Defined.

(** ** The values of [forward] *)

Section ForwardValues.

Local Open Scope R_scope.

Lemma mono_idempotent (x : signal) : mono (mono x) = mono x.
Proof.
  change (mono x)
    with [map (fun j => mean (column j x)) (seq 0 (time_length x))].
  apply mono_single.
Qed.

Lemma Rsum_repeat (c : R) (n : nat) : Rsum (repeat c n) = INR n * c.
Proof.
  induction n as [| n IH]; [cbn; ring |].
  cbn [repeat]. unfold Rsum in *. cbn [fold_right]. rewrite IH, S_INR. ring.
Qed.

Lemma mean_repeat (c : R) (n : nat) : (1 <= n)%nat -> mean (repeat c n) = c.
Proof.
  intros Hn. unfold mean. rewrite Rsum_repeat, repeat_length.
  assert (0 < INR n) by (apply lt_0_INR; lia).
  field. lra.
Qed.




(** The channel mean of copies of one channel. *)
Lemma mono_copies (row : list R) (channels : nat) :
  (1 <= channels)%nat -> mono (repeat row channels) = [row].
Proof.
  intros Hc. unfold mono, time_length.
  destruct channels as [| ch]; [lia |]. cbn [repeat hd]. f_equal.
  rewrite <- (map_nth_seq row) at 2.
  apply map_ext. intros j.
  unfold column. change (row :: repeat row ch) with (repeat row (S ch)).
  rewrite map_repeat. apply mean_repeat. lia.
Qed.

End ForwardValues.

(** X20: [forward] sees its input through the channel mean only: a signal
    and its mono mix-down give the same result. *)
Theorem forward_of_mono (rs : Resampler) (m : Demucs) (x : signal) :
  forward_example rs m (mono x) = forward_example rs m x.
Proof. unfold forward_example. rewrite mono_idempotent. reflexivity. Qed.




(** X22: a signal whose channels are all copies of one channel (a mono
    recording stored as stereo, say) gives the result of that channel
    alone. *)
Theorem forward_of_copies (rs : Resampler) (m : Demucs) (row : list R)
    (channels : nat) :
  (1 <= channels)%nat ->
  forward_example rs m (repeat row channels) = forward_example rs m [row].
Proof.
  intros Hc. unfold forward_example.
  rewrite mono_copies by exact Hc. rewrite mono_single. reflexivity.
Qed.

Lemma forward_of_copies_stereo :
  (1 <= 2)%nat
  /\ forward_example (mkResampler (fun row => row) (fun row => row))
       (toy_model true) (repeat [1; 2; 3]%R 2)
     = forward_example (mkResampler (fun row => row) (fun row => row))
         (toy_model true) [[1; 2; 3]%R].
Proof.
  split; [lia |].
  apply (@forward_of_copies (mkResampler (fun row => row) (fun row => row))
           (toy_model true) [1; 2; 3]%R 2).
  lia.
Defined.
